(** * Scheduled-pin subsystem of csv2pin_backend (src/src/index.js)

    Shallow embedding of the background scheduler ([processScheduledPins],
    [processScheduledPin], [handlePinError]), of the analytics rate
    computation ([syncUserAnalytics] and the manual sync route), and of the
    scheduled-pin HTTP routes (schedule, list, update, cancel, permanent
    delete); further, of the [profiles] credit and billing updates
    ([deductUserCredits], the Stripe webhook and its handlers), of
    [getPinterestAccessTokenForUser], and of the analytics sync jobs
    ([processAnalyticsSync], [syncUserAnalytics], the sync-analytics route).

    Modelling conventions.
    - Timestamps are milliseconds since the epoch, as [Z].
    - The [scheduled_pins] table is a [list pin]; ids are unique.  A
      supabase [.update({...}).eq('id', id)] is [update_where] with a patch
      written as the list of field assignments of the JS object literal.
    - Store writes are assumed to succeed (their [error] results are not
      modelled); the secondary [user_images] table is not modelled.
    - JS values received in request bodies are [jsval]; JS builtins whose
      behaviour is not part of this repository ([new Date(v)], [JSON.parse],
      [Number(v)], [Date#setFullYear], the text rendering of a JSON value
      written into a text column, [parseInt]) are parameters of a Section. *)

From Stdlib Require Import ZArith QArith Qround String List Bool Lia Sorted Permutation.
From Stdlib Require Import PrimFloat.
From Stdlib Require SpecFloat FloatOps Uint63.
Import ListNotations.
Open Scope string_scope.
Open Scope Z_scope.
#[local] Set Warnings "-register-all".

(** ** JS values *)

Inductive jsval : Type :=
| JUndef
| JNull
| JBool (b : bool)
| JNum (q : Q)
| JStr (s : string)
| JArr (l : list jsval)
| JObj (fields : list (string * jsval)).

(** JS truthiness ([if (v)], [!v], [v || d]). JSON numbers are never NaN. *)
Definition truthy (v : jsval) : bool :=
  match v with
  | JUndef | JNull => false
  | JBool b => b
  | JNum q => negb (Qeq_bool q 0)
  | JStr s => negb (String.eqb s "")
  | JArr _ | JObj _ => true
  end.

(** Errors a JS expression can throw. *)
Inductive js_error : Type := SyntaxError | TypeError | RangeError.

(** Property read [v.k]: [None] is the TypeError thrown on [null] and
    [undefined]; other primitives and arrays have no [type]/[interval]. *)
Definition get_prop (v : jsval) (k : string) : option jsval :=
  match v with
  | JUndef | JNull => None
  | JObj fs =>
      match find (fun kv => String.eqb (fst kv) k) fs with
      | Some kv => Some (snd kv)
      | None => Some JUndef
      end
  | _ => Some JUndef
  end.

(** ** The [scheduled_pins] row *)

Record pin : Type := mkPin {
  pin_id : nat;
  user_id : nat;
  title : string;
  description : string;
  scheduled_for : Z;
  timezone : string;
  status : string;
  retry_count : nat;
  next_retry_at : option Z;
  error_message : option string;
  credits_deducted : bool;
  pinterest_pin_id : option string;
  posted_at : option Z;
  updated_at : option Z;
  is_recurring : bool;
  recurrence_pattern : jsval;
  (** [pinterest_accounts(access_token)], embedded by the scheduler query *)
  account_token : option string
}.

(** One field of an [.update({...})] object literal. *)
Inductive assign : Type :=
| ATitle (s : string)
| ADescription (s : string)
| AScheduledFor (t : Z)
| ATimezone (s : string)
| AStatus (s : string)
| ARetryCount (n : nat)
| ANextRetryAt (t : option Z)
| AErrorMessage (m : option string)
| ACreditsDeducted (b : bool)
| APinterestPinId (x : option string)
| APostedAt (t : Z)
| AUpdatedAt (t : Z)
| AIsRecurring (b : bool)
| ARecurrencePattern (v : jsval).

Definition apply_assign (r : pin) (a : assign) : pin :=
  let '(mkPin i u ti de sf tz st rc nr em cd pp pa ua ir rp tok) := r in
  match a with
  | ATitle x => mkPin i u x de sf tz st rc nr em cd pp pa ua ir rp tok
  | ADescription x => mkPin i u ti x sf tz st rc nr em cd pp pa ua ir rp tok
  | AScheduledFor x => mkPin i u ti de x tz st rc nr em cd pp pa ua ir rp tok
  | ATimezone x => mkPin i u ti de sf x st rc nr em cd pp pa ua ir rp tok
  | AStatus x => mkPin i u ti de sf tz x rc nr em cd pp pa ua ir rp tok
  | ARetryCount x => mkPin i u ti de sf tz st x nr em cd pp pa ua ir rp tok
  | ANextRetryAt x => mkPin i u ti de sf tz st rc x em cd pp pa ua ir rp tok
  | AErrorMessage x => mkPin i u ti de sf tz st rc nr x cd pp pa ua ir rp tok
  | ACreditsDeducted x => mkPin i u ti de sf tz st rc nr em x pp pa ua ir rp tok
  | APinterestPinId x => mkPin i u ti de sf tz st rc nr em cd x pa ua ir rp tok
  | APostedAt x => mkPin i u ti de sf tz st rc nr em cd pp (Some x) ua ir rp tok
  | AUpdatedAt x => mkPin i u ti de sf tz st rc nr em cd pp pa (Some x) ir rp tok
  | AIsRecurring x => mkPin i u ti de sf tz st rc nr em cd pp pa ua x rp tok
  | ARecurrencePattern x => mkPin i u ti de sf tz st rc nr em cd pp pa ua ir x tok
  end.

Definition apply_patch (patch : list assign) (r : pin) : pin :=
  fold_left apply_assign patch r.

Definition store := list pin.

(** [.from('scheduled_pins').update(patch)] restricted by the filter [sel]. *)
Definition update_where (sel : pin -> bool) (patch : list assign) (s : store)
  : store :=
  map (fun r => if sel r then apply_patch patch r else r) s.

Definition eq_id (id : nat) (r : pin) : bool := Nat.eqb (pin_id r) id.

(** ** The due-job query of [processScheduledPins]

    [.in('status', ['scheduled','failed'])
     .lte('scheduled_for', now1)
     .or('next_retry_at.is.null,next_retry_at.lte.' + now2)
     .order('scheduled_for', {ascending: true}).limit(10)];
    [now1] and [now2] are the two [new Date()] calls of the query. *)

Definition is_due (now1 now2 : Z) (r : pin) : bool :=
  (String.eqb (status r) "scheduled" || String.eqb (status r) "failed")
  && (scheduled_for r <=? now1)
  && match next_retry_at r with
     | None => true
     | Some n => n <=? now2
     end.

(** Stable insertion by [scheduled_for] ascending. *)
Fixpoint insert_by_sched (x : pin) (l : list pin) : list pin :=
  match l with
  | [] => [x]
  | y :: l' =>
      if scheduled_for x <? scheduled_for y then x :: y :: l'
      else y :: insert_by_sched x l'
  end.

Fixpoint sort_by_sched (l : list pin) : list pin :=
  match l with
  | [] => []
  | x :: l' => insert_by_sched x (sort_by_sched l')
  end.

Definition batch_limit : nat := 10.

Definition fetch_due (s : store) (now1 now2 : Z) : list pin :=
  firstn batch_limit (sort_by_sched (filter (is_due now1 now2) s)).

(** ** [handlePinError(pinId, errorMessage, currentRetryCount = 0)]

    [nextRetryAt.setMinutes(nextRetryAt.getMinutes() + backoffMinutes)] is
    read as adding [backoffMinutes] minutes to the absolute time (the
    process runs in UTC). *)

Definition max_retries : nat := 3.

Definition minute_ms : Z := 60000.

Definition backoff_minutes (current_retry_count : nat) : Z :=
  5 * 3 ^ Z.of_nat current_retry_count.

Definition handle_pin_error (s : store) (now : Z) (id : nat)
    (msg : string) (current_retry_count : nat) : store :=
  let next_retry_count := S current_retry_count in
  if Nat.leb next_retry_count max_retries then
    update_where (eq_id id)
      [AStatus "failed"; AErrorMessage (Some msg);
       ARetryCount next_retry_count;
       ANextRetryAt (Some (now + backoff_minutes current_retry_count * minute_ms));
       AUpdatedAt now] s
  else
    update_where (eq_id id)
      [AStatus "failed"; AErrorMessage (Some ("Max retries reached: " ++ msg));
       ANextRetryAt None; AUpdatedAt now] s.

(** ** [processScheduledPin(pin)]

    [pin] is the row snapshot returned by the due-job query; the outcome of
    the Pinterest call ([fetch] then [res.json()]) is an input.  The effects
    on services outside the store are recorded as events. *)

Inductive publish_outcome : Type :=
| PubOk (pinterest_id : string)       (** [pinterestRes.ok] *)
| PubApiError (msg : string)          (** not ok: [pinData.message || pinData.error || ...] *)
| PubThrow (msg : string).            (** [fetch] or [.json()] throws *)

Inductive event : Type :=
| EvPublish (id : nat)                       (** POST /v5/pins for the pin *)
| EvDebit (id : nat) (user : nat) (amount : Z) (** [deductUserCredits(pin.user_id, 1)] *)
| EvSetFlag (id : nat).                      (** [update({credits_deducted: true})] *)

Definition process_scheduled_pin (s : store) (now : Z) (p : pin)
    (out : publish_outcome) : store * list event :=
  (* Mark as posting: update keyed by id only, no error in the model *)
  let s1 := update_where (eq_id (pin_id p))
              [AStatus "posting"; AUpdatedAt now] s in
  match account_token p with
  | None =>
      (handle_pin_error s1 now (pin_id p) "No Pinterest access token found" 0, [])
  | Some _ =>
      match out with
      | PubOk ext =>
          let s2 := update_where (eq_id (pin_id p))
                      [AStatus "posted"; APostedAt now;
                       APinterestPinId (Some ext); AErrorMessage None;
                       ARetryCount 0; ANextRetryAt None; AUpdatedAt now] s1 in
          if credits_deducted p then (s2, [EvPublish (pin_id p)])
          else (update_where (eq_id (pin_id p)) [ACreditsDeducted true] s2,
                [EvPublish (pin_id p); EvDebit (pin_id p) (user_id p) 1;
                 EvSetFlag (pin_id p)])
      | PubApiError msg =>
          (handle_pin_error s1 now (pin_id p) msg (retry_count p),
           [EvPublish (pin_id p)])
      | PubThrow msg =>
          (handle_pin_error s1 now (pin_id p) msg (retry_count p),
           [EvPublish (pin_id p)])
      end
  end.

(** [for (const pin of pinsToPost) await processScheduledPin(pin);] *)
Fixpoint process_batch (s : store) (now : Z) (oracle : pin -> publish_outcome)
    (batch : list pin) : store * list event :=
  match batch with
  | [] => (s, [])
  | p :: rest =>
      let '(s1, ev1) := process_scheduled_pin s now p (oracle p) in
      let '(s2, ev2) := process_batch s1 now oracle rest in
      (s2, (ev1 ++ ev2)%list)
  end.

(** One run of [processScheduledPins] at time [now]. *)
Definition process_scheduled_pins (s : store) (now : Z)
    (oracle : pin -> publish_outcome) : store * list event :=
  process_batch s now oracle (fetch_due s now now).

(** The writes [processScheduledPin(pin)] issues, in program order, each an
    [.update(patch).eq('id', pin.id)]: the claim, then either the
    [handlePinError] update or the success update followed, when the
    snapshot's [credits_deducted] is false, by the flag update. *)
Definition pin_error_patch (now : Z) (msg : string) (current_retry_count : nat)
    : list assign :=
  let next_retry_count := S current_retry_count in
  if Nat.leb next_retry_count max_retries then
    [AStatus "failed"; AErrorMessage (Some msg);
     ARetryCount next_retry_count;
     ANextRetryAt (Some (now + backoff_minutes current_retry_count * minute_ms));
     AUpdatedAt now]
  else
    [AStatus "failed"; AErrorMessage (Some ("Max retries reached: " ++ msg));
     ANextRetryAt None; AUpdatedAt now].

Definition pin_writes (now : Z) (p : pin) (out : publish_outcome)
    : list (list assign) :=
  [AStatus "posting"; AUpdatedAt now] ::
  match account_token p with
  | None => [pin_error_patch now "No Pinterest access token found" 0]
  | Some _ =>
      match out with
      | PubOk ext =>
          [AStatus "posted"; APostedAt now;
           APinterestPinId (Some ext); AErrorMessage None;
           ARetryCount 0; ANextRetryAt None; AUpdatedAt now] ::
          (if credits_deducted p then [] else [[ACreditsDeducted true]])
      | PubApiError msg => [pin_error_patch now msg (retry_count p)]
      | PubThrow msg => [pin_error_patch now msg (retry_count p)]
      end
  end.

(** ** Derived analytics rates ([syncUserAnalytics] and
    [POST /api/pinterest/sync-analytics], which share the same code).

    Counters are the values [metrics.X || 0] of the normalised metrics
    object.  They are JS numbers, i.e. IEEE-754 binary64 values, here
    Rocq's primitive floats, whose [+], [/], [*] and [<] are the IEEE
    operations (rounding to nearest, ties to even). *)

Record counters : Type := mkCounters {
  impressions : PrimFloat.float;
  outbound_clicks : PrimFloat.float;
  saves : PrimFloat.float;
  pin_clicks : PrimFloat.float;
  closeup_views : PrimFloat.float
}.

(** The exact value of a finite double, in lowest terms; [None] for an
    infinity or NaN. *)
Definition sf_to_Q (x : SpecFloat.spec_float) : option Q :=
  match x with
  | SpecFloat.S754_zero _ => Some 0%Q
  | SpecFloat.S754_finite s m e =>
      let v := if s then Z.neg m else Z.pos m in
      Some (Qred match e with
                 | Z0 => inject_Z v
                 | Zpos p => inject_Z (v * 2 ^ Zpos p)
                 | Zneg p => Qmake v (Pos.pow 2 p)
                 end)
  | _ => None
  end.

Definition float_to_Q (x : PrimFloat.float) : option Q := sf_to_Q (FloatOps.Prim2SF x).

(** [Math.round(x)]: the integral number closest to [x], ties towards
    +infinity, and [-0] for [-0.5 <= x < 0].  A double [m * 2^e] with
    [e >= 0] is already an integer; otherwise [|x| < 2^53], so the rounded
    magnitude is exactly representable.  [+-0], the infinities and NaN are
    returned unchanged. *)
Definition js_math_round (x : PrimFloat.float) : PrimFloat.float :=
  match FloatOps.Prim2SF x with
  | SpecFloat.S754_finite s m e =>
      if 0 <=? e then x
      else
        let q := Qmake (if s then Z.neg m else Z.pos m) (Pos.pow 2 (Z.to_pos (- e))) in
        let k := Qfloor (q + (1 # 2))%Q in
        let a := PrimFloat.of_uint63 (Uint63.of_Z (Z.abs k)) in
        if s then PrimFloat.opp a else a
  | _ => x
  end.

Record rates : Type := mkRates {
  engagement_rate : PrimFloat.float;
  click_through_rate : PrimFloat.float;
  save_rate : PrimFloat.float
}.

(** [engagementRate = impressions > 0 ? ((saves + pinClicks) / impressions) * 100 : 0]
    and the others, stored as [Math.round(rate * 100) / 100]. *)
Definition compute_rates (c : counters) : rates :=
  let imp := impressions c in
  let engagementRate :=
    if PrimFloat.ltb 0%float imp then (((saves c + pin_clicks c) / imp) * 100)%float
    else 0%float in
  let clickThroughRate :=
    if PrimFloat.ltb 0%float imp then ((outbound_clicks c / imp) * 100)%float else 0%float in
  let saveRate :=
    if PrimFloat.ltb 0%float imp then ((saves c / imp) * 100)%float else 0%float in
  mkRates (js_math_round (engagementRate * 100) / 100)%float
          (js_math_round (clickThroughRate * 100) / 100)%float
          (js_math_round (saveRate * 100) / 100)%float.

(** The rate as the specification words it, in exact arithmetic: [0] when
    impressions is [0], otherwise [count / impressions * 100] rounded to two
    decimals (halves rounded up). *)
Definition spec_rate (count imp : Q) : Q :=
  if Qeq_bool imp 0 then 0%Q
  else (inject_Z (Qfloor (count / imp * 100 * 100 + (1 # 2))) / 100)%Q.

(** ** [GET /api/pinterest/scheduled-pins]

    [status] is the query parameter ([None] when absent); [offset] and
    [limit] are the [parseInt] results.  [.range(from, to)] returns the rows
    [from..to] of the ordered result. *)

Inductive list_response : Type :=
| ListOk (scheduled_pins : list pin) (total : nat)
| ListError (code : Z).

Definition db_range (from to : Z) (l : list pin) : list pin :=
  firstn (Z.to_nat (to - from + 1)) (skipn (Z.to_nat from) l).

(** [.eq('user_id', user.id).order('scheduled_for')], then
    [if (status) query = query.eq('status', status)] *)
Definition list_rows (s : store) (user : nat) (status_q : option string)
    : list pin :=
  let rows := sort_by_sched (filter (fun r => Nat.eqb (user_id r) user) s) in
  match status_q with
  | Some st => if String.eqb st "" then rows
               else filter (fun r => String.eqb (status r) st) rows
  | None => rows
  end.

Definition list_pins (s : store) (user : nat) (status_q : option string)
    (offset limit : Z) : list_response :=
  let scheduledPins := db_range offset (offset + limit - 1)
                         (list_rows s user status_q) in
  ListOk scheduledPins (length scheduledPins).

(** ** HTTP routes on scheduled pins (after authentication) *)

Inductive response : Type :=
| Respond (code : Z)       (** [res.status(code).json(...)], 200 for [res.json] *)
| Rejected (e : js_error). (** the async handler throws outside its [try] *)

(** [.select('*').eq('id', id).eq('user_id', user.id).single()] *)
Definition owned (id user : nat) (r : pin) : bool :=
  eq_id id r && Nat.eqb (user_id r) user.

Definition find_owned (s : store) (id user : nat) : option pin :=
  match filter (owned id user) s with
  | [r] => Some r
  | _ => None
  end.

Record put_body : Type := mkPutBody {
  b_title : jsval;
  b_description : jsval;
  b_scheduled_for : jsval;
  b_timezone : jsval;
  b_status : jsval;
  b_is_recurring : jsval;
  b_recurrence_pattern : jsval
}.

Record schedule_body : Type := mkScheduleBody {
  s_image_url : jsval;
  s_title : jsval;
  s_description : jsval;
  s_board_id : jsval;
  s_scheduled_for : jsval;
  s_is_recurring : jsval;
  s_recurrence_pattern : jsval
}.

Section Routes.

(** [new Date(v)]: the time value, [None] for an Invalid Date (NaN). *)
Variable date_of : jsval -> option Z.
(** The text stored when a JSON value is written into a text column. *)
Variable db_text : jsval -> string.
(** [JSON.parse(s)]: [None] when it throws a SyntaxError. *)
Variable json_parse : string -> option jsval.
(** ToNumber for the relational operators: [None] for NaN. *)
Variable to_number : jsval -> option Q.
(** [d.setFullYear(d.getFullYear() + 1)] on the current time. *)
Variable one_year_after : Z -> Z.

(** [scheduleDate <= now] with a possibly invalid [scheduleDate]. *)
Definition date_le (d : option Z) (now : Z) : bool :=
  match d with Some t => t <=? now | None => false end.

(** *** [PUT /api/pinterest/scheduled-pins/:id] *)
Definition put_scheduled_pin (s : store) (user id : nat) (b : put_body)
    (now : Z) : response * store :=
  match find_owned s id user with
  | None => (Respond 404, s)
  | Some existing =>
    if String.eqb (status existing) "posted" then (Respond 400, s)
    else if truthy (b_scheduled_for b) && date_le (date_of (b_scheduled_for b)) now
    then (Respond 400, s)
    else
      let u_title := if truthy (b_title b) then [ATitle (db_text (b_title b))] else [] in
      let u_desc := if truthy (b_description b)
                    then [ADescription (db_text (b_description b))] else [] in
      (* new Date(scheduled_for).toISOString() throws on an Invalid Date *)
      let u_sched := if truthy (b_scheduled_for b)
                     then match date_of (b_scheduled_for b) with
                          | Some d => Some [AScheduledFor d]
                          | None => None
                          end
                     else Some [] in
      let u_tz := if truthy (b_timezone b) then [ATimezone (db_text (b_timezone b))] else [] in
      let u_status := if truthy (b_status b) then [AStatus (db_text (b_status b))] else [] in
      let u_rec := match b_is_recurring b with
                   | JBool x => [AIsRecurring x]
                   | _ => []
                   end in
      let u_pat := if truthy (b_recurrence_pattern b)
                   then [ARecurrencePattern (b_recurrence_pattern b)] else [] in
      match u_sched with
      | None => (Respond 500, s)
      | Some u_sched =>
          let updates := (u_title ++ u_desc ++ u_sched ++ u_tz ++ u_status
                          ++ u_rec ++ u_pat)%list in
          (Respond 200, update_where (owned id user) updates s)
      end
  end.

(** *** [DELETE /api/pinterest/scheduled-pins/:id] *)
Definition delete_scheduled_pin (s : store) (user id : nat) (now : Z)
    : response * store :=
  match find_owned s id user with
  | None => (Respond 404, s)
  | Some existing =>
    if String.eqb (status existing) "posted" then (Respond 400, s)
    else if String.eqb (status existing) "posting"
    then (Respond 200, update_where (owned id user) [AStatus "cancelled"] s)
    else (Respond 200, update_where (owned id user)
                         [AStatus "cancelled"; AUpdatedAt now] s)
  end.

(** *** [POST /api/pinterest/schedule-pin]

    [token] is the result of [getPinterestAccessTokenForUser], [insert_ok]
    whether the insert returned no error. *)

Inductive check : Type := Continue | Stop (r : response).

Definition is_recurrence_type (v : jsval) : bool :=
  match v with
  | JStr t => String.eqb t "daily" || String.eqb t "weekly" || String.eqb t "monthly"
  | _ => false
  end.

Definition num_lt (v : jsval) (q : Q) : bool :=
  match to_number v with Some x => negb (Qle_bool q x) | None => false end.

Definition num_gt (v : jsval) (q : Q) : bool :=
  match to_number v with Some x => negb (Qle_bool x q) | None => false end.

(** The recurrence validation block, which is outside the [try]. *)
Definition validate_recurrence (recurrence_pattern : jsval) : check :=
  let pattern := match recurrence_pattern with
                 | JStr str => json_parse str
                 | v => Some v
                 end in
  match pattern with
  | None => Stop (Rejected SyntaxError)
  | Some pattern =>
    match get_prop pattern "type" with
    | None => Stop (Rejected TypeError)
    | Some ty =>
      if negb (is_recurrence_type ty) then Stop (Respond 400) else
      match get_prop pattern "interval" with
      | None => Stop (Rejected TypeError)
      | Some iv =>
        if negb (truthy iv) || num_lt iv 1 || num_gt iv 30
        then Stop (Respond 400) else Continue
      end
    end
  end.

Definition schedule_pin (b : schedule_body) (now : Z) (token : option string)
    (insert_ok : bool) : response :=
  if negb (truthy (s_image_url b) && truthy (s_title b) && truthy (s_description b)
           && truthy (s_board_id b) && truthy (s_scheduled_for b))
  then Respond 400 else
  let scheduleDate := date_of (s_scheduled_for b) in
  if date_le scheduleDate now then Respond 400 else
  if match scheduleDate with Some d => one_year_after now <? d | None => false end
  then Respond 400 else
  match token with
  | None => Respond 400
  | Some _ =>
    (* is_recurring = false is the destructuring default *)
    let is_rec := match s_is_recurring b with JUndef => JBool false | v => v end in
    let chk := if truthy is_rec && truthy (s_recurrence_pattern b)
               then validate_recurrence (s_recurrence_pattern b) else Continue in
    match chk with
    | Stop r => r
    | Continue =>
      (* try { ... scheduleDate.toISOString() ... insert ... } catch -> 500 *)
      match scheduleDate with
      | None => Respond 500
      | Some _ => if insert_ok then Respond 200 else Respond 500
      end
    end
  end.

(** The [updates] object the update route writes, [None] when
    [new Date(scheduled_for).toISOString()] throws. *)
Definition put_updates (b : put_body) : option (list assign) :=
  let u_title := if truthy (b_title b) then [ATitle (db_text (b_title b))] else [] in
  let u_desc := if truthy (b_description b)
                then [ADescription (db_text (b_description b))] else [] in
  let u_sched := if truthy (b_scheduled_for b)
                 then match date_of (b_scheduled_for b) with
                      | Some d => Some [AScheduledFor d]
                      | None => None
                      end
                 else Some [] in
  let u_tz := if truthy (b_timezone b) then [ATimezone (db_text (b_timezone b))] else [] in
  let u_status := if truthy (b_status b) then [AStatus (db_text (b_status b))] else [] in
  let u_rec := match b_is_recurring b with
               | JBool x => [AIsRecurring x]
               | _ => []
               end in
  let u_pat := if truthy (b_recurrence_pattern b)
               then [ARecurrencePattern (b_recurrence_pattern b)] else [] in
  match u_sched with
  | None => None
  | Some u_sched =>
      Some (u_title ++ u_desc ++ u_sched ++ u_tz ++ u_status ++ u_rec ++ u_pat)%list
  end.

End Routes.

(** ** Two concurrent scheduler runs

    [setInterval(processScheduledPins, 60000)] does not wait for the previous
    async run, and [POST /api/pinterest/process-scheduled] runs it on demand:
    two runs A and B can both read the due set before either claims a pin.
    Here both query at [now], then A processes its batch, then B its own. *)
Definition two_pollers (s : store) (now : Z)
    (oracleA oracleB : pin -> publish_outcome) : store * list event :=
  let batchA := fetch_due s now now in
  let batchB := fetch_due s now now in
  let '(s1, evA) := process_batch s now oracleA batchA in
  let '(s2, evB) := process_batch s1 now oracleB batchB in
  (s2, (evA ++ evB)%list).

Definition is_publish_of (id : nat) (e : event) : bool :=
  match e with EvPublish i => Nat.eqb i id | _ => false end.

Definition is_debit_of (id : nat) (e : event) : bool :=
  match e with EvDebit i _ _ => Nat.eqb i id | _ => false end.

Definition is_set_flag_of (id : nat) (e : event) : bool :=
  match e with EvSetFlag i => Nat.eqb i id | _ => false end.

Definition count_publish (id : nat) (evs : list event) : nat :=
  length (filter (is_publish_of id) evs).

Definition count_debit (id : nat) (evs : list event) : nat :=
  length (filter (is_debit_of id) evs).

Definition count_set_flag (id : nat) (evs : list event) : nat :=
  length (filter (is_set_flag_of id) evs).

(** ** [DELETE /api/pinterest/scheduled-pins/:id/permanent] *)

Definition delete_permanent (s : store) (user id : nat) : response * store :=
  match find_owned s id user with
  | None => (Respond 404, s)
  | Some existing =>
    (* ['cancelled', 'posted'].includes(existingPin.status) *)
    if negb (String.eqb (status existing) "cancelled"
             || String.eqb (status existing) "posted")
    then (Respond 400, s)
    else (Respond 200, filter (fun r => negb (owned id user r)) s)
  end.

(** ** Events published by a scheduler run *)

Definition is_publish (e : event) : bool :=
  match e with EvPublish _ => true | _ => false end.

(** Fields the update route may write ([updates.title] ... [updates.recurrence_pattern]). *)
Definition user_writable (a : assign) : bool :=
  match a with
  | ATitle _ | ADescription _ | AScheduledFor _ | ATimezone _ | AStatus _
  | AIsRecurring _ | ARecurrencePattern _ => true
  | _ => false
  end.

(** The cancel route's update for a pin of status [st]. *)
Definition cancel_patch (st : string) (now : Z) : list assign :=
  AStatus "cancelled" :: (if String.eqb st "posting" then [] else [AUpdatedAt now]).

(** ** Interleaved histories

    Scheduler runs and requests on the scheduled-pin routes run
    concurrently: each reads the store (the due-job query for a run, the
    owned row for a request) and issues its writes later, and any other
    write may land in between.  [interleaved s0 s] holds of every store
    reachable from [s0] this way: each step applies to the current store
    one write of [processScheduledPin(p)] for a pin [p] of a due set read
    from an earlier store, or the write of an update or cancel request that
    succeeded on an earlier store.  The order of one pin's writes is not
    constrained, so this covers every interleaving and more. *)

Section Interleaving.

Variable date_of : jsval -> option Z.
Variable db_text : jsval -> string.

Inductive interleaved (s0 : store) : store -> Prop :=
| IStart : interleaved s0 s0
| IPinWrite snap s now1 now2 now p out patch :
    interleaved s0 snap -> interleaved s0 s ->
    In p (fetch_due snap now1 now2) -> In patch (pin_writes now p out) ->
    interleaved s0 (update_where (eq_id (pin_id p)) patch s)
| IUpdate snap s user id b now updates :
    interleaved s0 snap -> interleaved s0 s ->
    fst (put_scheduled_pin date_of db_text snap user id b now) = Respond 200 ->
    put_updates date_of db_text b = Some updates ->
    interleaved s0 (update_where (owned id user) updates s)
| ICancel snap s user id now existing :
    interleaved s0 snap -> interleaved s0 s ->
    find_owned snap id user = Some existing ->
    fst (delete_scheduled_pin snap user id now) = Respond 200 ->
    interleaved s0 (update_where (owned id user) (cancel_patch (status existing) now) s).

End Interleaving.

(** The columns the scheduler and the credit accounting rely on. *)
Definition scheduler_fields (r : pin) :=
  (pin_id r, user_id r, retry_count r, next_retry_at r, error_message r,
   credits_deducted r, pinterest_pin_id r, posted_at r, updated_at r, account_token r).

(** ** The [profiles] table

    Columns read or written by [deductUserCredits], the Stripe webhook
    handlers and [getPinterestAccessTokenForUser]; [None] is SQL null. *)

Record profile : Type := mkProfile {
  prof_id : nat;
  plan_type : option string;
  credits_remaining : option Z;
  is_pro : bool;
  stripe_customer_id : option string;
  stripe_subscription_id : option string;
  pinterest_access_token : option string
}.

Inductive passign : Type :=
| PPlanType (t : option string)
| PCreditsRemaining (c : option Z)
| PIsPro (b : bool)
| PStripeCustomerId (c : option string)
| PStripeSubscriptionId (c : option string).

Definition apply_passign (p : profile) (a : passign) : profile :=
  let '(mkProfile i pt cr ip sc ss tok) := p in
  match a with
  | PPlanType x => mkProfile i x cr ip sc ss tok
  | PCreditsRemaining x => mkProfile i pt x ip sc ss tok
  | PIsPro x => mkProfile i pt cr x sc ss tok
  | PStripeCustomerId x => mkProfile i pt cr ip x ss tok
  | PStripeSubscriptionId x => mkProfile i pt cr ip sc x tok
  end.

Definition profiles := list profile.

Definition update_profiles (sel : profile -> bool) (patch : list passign)
    (ps : profiles) : profiles :=
  map (fun p => if sel p then fold_left apply_passign patch p else p) ps.

Definition prof_eq_id (id : nat) (p : profile) : bool := Nat.eqb (prof_id p) id.

(** [.from('profiles').select(...).eq('id', id).single()] *)
Definition find_profile (ps : profiles) (id : nat) : option profile :=
  match filter (prof_eq_id id) ps with
  | [p] => Some p
  | _ => None
  end.

(** [x || 0] on an integer column *)
Definition or_zero (c : option Z) : Z := match c with Some n => n | None => 0 end.

(** [deductUserCredits(userId, amount)] *)
Definition deduct_user_credits (ps : profiles) (userId : nat) (amount : Z)
    : profiles :=
  match find_profile ps userId with
  | None => ps
  | Some profile =>
      let newCredits := Z.max 0 (or_zero (credits_remaining profile) - amount) in
      update_profiles (prof_eq_id userId) [PCreditsRemaining (Some newCredits)] ps
  end.

(** ** Stripe webhook ([POST /api/stripe-webhook]), after signature checking

    A checkout session as created by [/api/create-checkout-session]
    (metadata [userId], [planType], [credits]) or by
    [/api/create-credits-session] (metadata [userId], [type: 'topup'],
    [credits]).  [md_plan_type = None]: the key is absent, so the
    [plan_type: undefined] field is dropped from the update;
    [sess_customer]/[sess_subscription] [None]: the value is null. *)

Record checkout_session : Type := mkCheckoutSession {
  md_user_id : nat;
  md_plan_type : option string;
  md_credits : string;
  md_type : option string;
  sess_customer : option string;
  sess_subscription : option string
}.

(** [invoice.payment_succeeded] carries the customer of the subscription
    retrieved from Stripe; [customer.subscription.deleted] its customer. *)
Inductive stripe_event : Type :=
| CheckoutSessionCompleted (session : checkout_session)
| InvoicePaymentSucceeded (customer : string)
| SubscriptionDeleted (customer : string)
| OtherStripeEvent.

Definition option_string_eqb (a : option string) (b : string) : bool :=
  match a with Some x => String.eqb x b | None => false end.

(** [.select(...).eq('stripe_customer_id', customerId).single()] *)
Definition find_by_customer (ps : profiles) (customer : string) : option profile :=
  match filter (fun p => option_string_eqb (stripe_customer_id p) customer) ps with
  | [p] => Some p
  | _ => None
  end.

(** Names [planCredits[k]] finds on [Object.prototype]. *)
Definition object_prototype_keys : list string :=
  ["constructor"; "hasOwnProperty"; "isPrototypeOf"; "propertyIsEnumerable";
   "toLocaleString"; "toString"; "valueOf"; "__defineGetter__";
   "__defineSetter__"; "__lookupGetter__"; "__lookupSetter__"; "__proto__"].

(** [planCredits[profile.plan_type] || 0]; a null plan is looked up as
    ['null'].  [None]: the lookup returns a function or [Object.prototype],
    and no credit value is stored (a function is dropped by JSON
    serialisation, an object is refused by the integer column). *)
Definition plan_credits (pt : option string) : option Z :=
  let k := match pt with Some t => t | None => "null" end in
  if String.eqb k "creator" then Some 500
  else if String.eqb k "pro" then Some 1500
  else if String.eqb k "agency" then Some 5000
  else if existsb (String.eqb k) object_prototype_keys then None
  else Some 0.

(** [handleInvoicePaymentSucceeded] after [stripe.subscriptions.retrieve] *)
Definition handle_invoice_payment_succeeded (ps : profiles) (customerId : string)
    : profiles :=
  match find_by_customer ps customerId with
  | None => ps
  | Some profile =>
      match plan_credits (plan_type profile) with
      | Some credits =>
          update_profiles (prof_eq_id (prof_id profile))
            [PCreditsRemaining (Some credits)] ps
      | None => ps
      end
  end.

(** [handleSubscriptionDeleted] *)
Definition handle_subscription_deleted (ps : profiles) (customerId : string)
    : profiles :=
  match find_by_customer ps customerId with
  | None => ps
  | Some profile =>
      update_profiles (prof_eq_id (prof_id profile))
        [PPlanType (Some "free"); PCreditsRemaining (Some 50); PIsPro false;
         PStripeSubscriptionId None] ps
  end.

Section Stripe.

(** [parseInt(s)] and [parseInt(s, 10)]: [None] for NaN. *)
Variable parse_int : string -> option Z.
Variable parse_int_10 : string -> option Z.

(** [handleCheckoutSessionCompleted(session)]; a NaN credit count is
    serialised as null. *)
Definition handle_checkout_session_completed (ps : profiles)
    (session : checkout_session) : profiles :=
  let credits := parse_int (md_credits session) in
  update_profiles (prof_eq_id (md_user_id session))
    ((match md_plan_type session with Some t => [PPlanType (Some t)] | None => [] end)
     ++ [PCreditsRemaining credits; PIsPro true;
         PStripeCustomerId (sess_customer session);
         PStripeSubscriptionId (sess_subscription session)])%list ps.

(** The one-time top-up block of the [checkout.session.completed] case. *)
Definition apply_topup (ps : profiles) (session : checkout_session) : profiles :=
  if option_string_eqb (md_type session) "topup"
     && negb (String.eqb (md_credits session) "") then
    let addCredits := match parse_int_10 (md_credits session) with
                      | Some n => n
                      | None => 0
                      end in
    if 0 <? addCredits then
      let current := match find_profile ps (md_user_id session) with
                     | Some profile => or_zero (credits_remaining profile)
                     | None => 0
                     end in
      update_profiles (prof_eq_id (md_user_id session))
        [PCreditsRemaining (Some (current + addCredits))] ps
    else ps
  else ps.

Definition stripe_webhook (ps : profiles) (ev : stripe_event) : profiles :=
  match ev with
  | CheckoutSessionCompleted session =>
      apply_topup (handle_checkout_session_completed ps session) session
  | InvoicePaymentSucceeded c => handle_invoice_payment_succeeded ps c
  | SubscriptionDeleted c => handle_subscription_deleted ps c
  | OtherStripeEvent => ps
  end.

End Stripe.

(** ** [getPinterestAccessTokenForUser(userId, accountId)]

    [account = None] when [accountId] is falsy; [x || null] maps an empty
    token to null. *)

Record pinterest_account : Type := mkPinterestAccount {
  acc_id : nat;
  acc_user_id : nat;
  access_token : option string
}.

Definition or_null (t : option string) : option string :=
  match t with
  | Some x => if String.eqb x "" then None else Some x
  | None => None
  end.

Definition get_pinterest_access_token_for_user (ps : profiles)
    (accounts : list pinterest_account) (userId : nat) (account : option nat)
    : option string :=
  match account with
  | None =>
      match find_profile ps userId with
      | Some profile => or_null (pinterest_access_token profile)
      | None => None
      end
  | Some accountId =>
      match filter (fun a => Nat.eqb (acc_id a) accountId
                             && Nat.eqb (acc_user_id a) userId) accounts with
      | [a] => or_null (access_token a)
      | _ => None
      end
  end.

(** ** Analytics sync ([syncUserAnalytics], [processAnalyticsSync],
    [POST /api/pinterest/sync-analytics])

    The columns of [scheduled_pins] these functions read and write.
    [m_account_token] is the embedded [pinterest_accounts(access_token)],
    [None] when absent or falsy.  The Pinterest analytics call for a row
    ([fetch], [res.json()], metric extraction with [metrics.X || 0]) is an
    input [fetch]: [None] when the response is not ok or the call throws,
    otherwise the counters read and the time of the [new Date()] written
    into [metrics_last_updated] by the update that follows.  The clock is
    read afresh at each [new Date()]; hours are UTC hours, so
    [d.setHours(d.getHours() - h)] subtracts [h] hours. *)

Record metrics_row : Type := mkMetricsRow {
  m_id : nat;
  m_user_id : nat;
  m_status : string;
  m_pinterest_pin_id : option string;
  m_metrics_last_updated : option Z;
  m_account_token : option string;
  m_counters : counters;
  m_rates : rates
}.

Definition hour_ms : Z := 3600000.

(** The [.update({impressions, ..., save_rate, metrics_last_updated})] of one row. *)
Definition refresh_metrics (c : counters) (t : Z) (r : metrics_row) : metrics_row :=
  mkMetricsRow (m_id r) (m_user_id r) (m_status r) (m_pinterest_pin_id r)
    (Some t) (m_account_token r) c (compute_rates c).

Definition update_metrics (id : nat) (c : counters) (t : Z)
    (ms : list metrics_row) : list metrics_row :=
  map (fun r => if Nat.eqb (m_id r) id then refresh_metrics c t r else r) ms.

(** [.eq('status', 'posted').not('pinterest_pin_id', 'is', null)] *)
Definition posted_with_pin_id (r : metrics_row) : bool :=
  String.eqb (m_status r) "posted"
  && match m_pinterest_pin_id r with Some _ => true | None => false end.

(** [.eq('user_id', userId)] and the two filters above, [.limit(limit)] *)
Definition posted_pins_of (ms : list metrics_row) (user : nat) (limit : nat)
    : list metrics_row :=
  firstn limit (filter (fun r => Nat.eqb (m_user_id r) user && posted_with_pin_id r) ms).

(** [if (pin.metrics_last_updated) { ... if (lastUpdate > windowStart) continue; }] *)
Definition recently_updated (windowStart : Z) (r : metrics_row) : bool :=
  match m_metrics_last_updated r with
  | Some t => windowStart <? t
  | None => false
  end.

(** The [for (const pin of postedPins)] loop; returns the store and
    [syncedCount].  [windowStart pin] is the start of the recency window
    when [pin] is checked; [force] is [force_sync] (always false in
    [syncUserAnalytics]). *)
Fixpoint sync_loop (ms : list metrics_row) (windowStart : metrics_row -> Z)
    (force : bool) (fetch : metrics_row -> option (counters * Z))
    (pins : list metrics_row) : list metrics_row * nat :=
  match pins with
  | [] => (ms, 0%nat)
  | pin :: rest =>
      if negb force && recently_updated (windowStart pin) pin
      then sync_loop ms windowStart force fetch rest
      else match fetch pin with
           | None => sync_loop ms windowStart force fetch rest
           | Some (c, t) =>
               let '(ms', n) :=
                 sync_loop (update_metrics (m_id pin) c t ms) windowStart force fetch rest in
               (ms', S n)
           end
  end.

(** [syncUserAnalytics(userId, accessToken)]; [start] is the time of the
    [new Date()] from which [twelveHoursAgo] is computed, once per call. *)
Definition sync_user_analytics (ms : list metrics_row) (userId : nat)
    (accessToken : option string) (start : Z)
    (fetch : metrics_row -> option (counters * Z)) : list metrics_row :=
  match accessToken with
  | None => ms
  | Some _ =>
      let twelveHoursAgo := start - 12 * hour_ms in
      fst (sync_loop ms (fun _ => twelveHoursAgo) false fetch (posted_pins_of ms userId 20))
  end.

(** [usersMap]: the first embedded account of each user, in row order. *)
Fixpoint collect_users (rows : list metrics_row) (acc : list (nat * option string))
    : list (nat * option string) :=
  match rows with
  | [] => acc
  | r :: rest =>
      if existsb (fun ut => Nat.eqb (fst ut) (m_user_id r)) acc
      then collect_users rest acc
      else collect_users rest (acc ++ [(m_user_id r, m_account_token r)])%list
  end.

Definition analytics_users (ms : list metrics_row) : list (nat * option string) :=
  collect_users (filter posted_with_pin_id ms) [].

(** [processAnalyticsSync()]; [start_of u] is the time at which the call
    [syncUserAnalytics] for user [u] computes its window (each user is
    synced once, see [analytics_users]). *)
Definition process_analytics_sync (ms : list metrics_row) (start_of : nat -> Z)
    (fetch : metrics_row -> option (counters * Z)) : list metrics_row :=
  fold_left (fun ms ut => sync_user_analytics ms (fst ut) (snd ut) (start_of (fst ut)) fetch)
    (analytics_users ms) ms.

Record sync_result : Type := mkSyncResult {
  sr_code : Z;
  sr_rows : list metrics_row;
  sr_synced_count : nat;
  sr_total_pins : nat
}.

(** [POST /api/pinterest/sync-analytics] after authentication; [accessToken]
    is the result of [getPinterestAccessTokenForUser]; [clock pin] is the
    time of the [new Date()] from which [twentyFourHoursAgo] is computed
    when [pin] is checked. *)
Definition sync_analytics_route (ms : list metrics_row) (user : nat)
    (accessToken : option string) (force_sync : bool) (clock : metrics_row -> Z)
    (fetch : metrics_row -> option (counters * Z)) : sync_result :=
  match accessToken with
  | None => mkSyncResult 400 ms 0 0
  | Some _ =>
      let postedPins := posted_pins_of ms user 50 in
      match postedPins with
      | [] => mkSyncResult 200 ms 0 0
      | _ =>
          let '(ms', n) :=
            sync_loop ms (fun pin => clock pin - 24 * hour_ms) force_sync fetch postedPins in
          mkSyncResult 200 ms' n (length postedPins)
      end
  end.

(** ** Concrete inputs *)

(** Text stored for a JSON string value (the only values written below). *)
Definition db_text_of_string (v : jsval) : string :=
  match v with JStr t => t | _ => "" end.

(** [new Date(v)] on numeric time values. *)
Definition date_of_number (v : jsval) : option Z :=
  match v with JNum q => Some (Qfloor q) | _ => None end.

Definition example_pin (st : string) (rc : nat) : pin :=
  mkPin 1 7 "Spring recipes" "Ten easy dishes" 1000 "UTC" st rc None None
        false None None None false JNull (Some "token").

Definition recurring_request : schedule_body :=
  mkScheduleBody (JStr "https://cdn.example.com/pin.png") (JStr "Spring recipes")
    (JStr "Ten easy dishes") (JStr "board-1") (JNum 5000) (JBool true)
    (JStr "every day").

Definition tokenless_pin : pin :=
  mkPin 2 7 "Autumn walks" "Five trails" 1000 "UTC" "scheduled" 2 None None
        false None None None false JNull None.

(** A one-off pin creation request. *)
Definition single_request : schedule_body :=
  mkScheduleBody (JStr "https://cdn.example.com/pin.png") (JStr "Spring recipes")
    (JStr "Ten easy dishes") (JStr "board-1") (JNum 5000) (JBool false) JUndef.

(** [parseInt] on strings of decimal digits; [None] (NaN) otherwise. *)
Fixpoint digits_value (s : string) (acc : Z) : option Z :=
  match s with
  | EmptyString => Some acc
  | String ch rest =>
      let d := Z.of_nat (Ascii.nat_of_ascii ch) - 48 in
      if (0 <=? d) && (d <=? 9) then digits_value rest (10 * acc + d) else None
  end.

Definition parse_decimal (s : string) : option Z :=
  match s with
  | EmptyString => None
  | _ => digits_value s 0
  end.

Definition example_profile : profile :=
  mkProfile 7 (Some "creator") (Some 3) false None None (Some "profile-token").

Definition other_profile : profile :=
  mkProfile 8 (Some "pro") (Some 40) true (Some "cus_8") (Some "sub_8") None.

Definition example_profiles : profiles := [example_profile; other_profile].

(** A credit pack of 100 bought by user 7. *)
Definition topup_session : checkout_session :=
  mkCheckoutSession 7 None "100" (Some "topup") None None.

(** A creator-plan subscription of user 7 whose metadata grants 1000 credits. *)
Definition creator_session : checkout_session :=
  mkCheckoutSession 7 (Some "creator") "1000" None (Some "cus_7") (Some "sub_7").

Definition example_accounts : list pinterest_account :=
  [mkPinterestAccount 3 7 (Some "account-token"); mkPinterestAccount 4 8 (Some "")].

Definition zero_counters : counters := mkCounters 0 0 0 0 0.

(** Two posted pins of user 7, the second refreshed at t = 4000000, and a
    scheduled pin of user 8. *)
Definition example_metrics : list metrics_row :=
  [mkMetricsRow 1 7 "posted" (Some "p-1") None (Some "token") zero_counters
     (compute_rates zero_counters);
   mkMetricsRow 2 7 "posted" (Some "p-2") (Some 4000000) (Some "token") zero_counters
     (compute_rates zero_counters);
   mkMetricsRow 3 8 "scheduled" None None (Some "token") zero_counters
     (compute_rates zero_counters)].

(** Every analytics call answers, and its update is stamped one second
    after the row's id in seconds past t = 10000000. *)
Definition example_fetch (r : metrics_row) : option (counters * Z) :=
  Some (mkCounters 200 3 5 7 11, 10000000 + 1000 * Z.of_nat (m_id r)).

(** 160 impressions and 23 saves: a save rate of exactly 14.375 percent. *)
Definition tie_counters : counters := mkCounters 160 0 23 0 0.

(** * Properties *)

(** ** Store updates *)

Lemma apply_assign_pin_id r a : pin_id (apply_assign r a) = pin_id r.
Proof. destruct r, a; reflexivity. Qed.

Lemma apply_assign_user_id r a : user_id (apply_assign r a) = user_id r.
Proof. destruct r, a; reflexivity. Qed.

Lemma apply_patch_pin_id patch r : pin_id (apply_patch patch r) = pin_id r.
Proof.
  unfold apply_patch. revert r.
  induction patch as [|a patch IH]; intro r; simpl; [reflexivity|].
  rewrite IH. apply apply_assign_pin_id.
Qed.

Lemma apply_patch_user_id patch r : user_id (apply_patch patch r) = user_id r.
Proof.
  unfold apply_patch. revert r.
  induction patch as [|a patch IH]; intro r; simpl; [reflexivity|].
  rewrite IH. apply apply_assign_user_id.
Qed.

Lemma apply_patch_app p1 p2 r :
  apply_patch (p1 ++ p2) r = apply_patch p2 (apply_patch p1 r).
Proof. unfold apply_patch. apply fold_left_app. Qed.

Lemma eq_id_apply_patch id patch r : eq_id id (apply_patch patch r) = eq_id id r.
Proof. unfold eq_id. now rewrite apply_patch_pin_id. Qed.

Lemma in_update_where sel patch s r' :
  In r' (update_where sel patch s) <->
  exists r, In r s /\ r' = (if sel r then apply_patch patch r else r).
Proof.
  unfold update_where. rewrite in_map_iff.
  split; intros [r [H1 H2]]; exists r; split; auto.
Qed.

Lemma map_pin_id_update_where sel patch s :
  map pin_id (update_where sel patch s) = map pin_id s.
Proof.
  unfold update_where. rewrite map_map. apply map_ext. intro r.
  destruct (sel r); [apply apply_patch_pin_id | reflexivity].
Qed.

Lemma update_where_compose id p1 p2 s :
  update_where (eq_id id) p2 (update_where (eq_id id) p1 s)
  = update_where (eq_id id) (p1 ++ p2) s.
Proof.
  unfold update_where. rewrite map_map. apply map_ext. intro r.
  destruct (eq_id id r) eqn:E.
  - rewrite eq_id_apply_patch, E. symmetry. apply apply_patch_app.
  - now rewrite E.
Qed.

Lemma Forall2_map_r {A B} (P : A -> B -> Prop) (f : A -> B) (l : list A) :
  (forall x, In x l -> P x (f x)) -> Forall2 P l (map f l).
Proof.
  induction l as [|x l IH]; intro H; simpl; constructor.
  - apply H. now left.
  - apply IH. intros y Hy. apply H. now right.
Qed.

(** ** Ordering and membership of the due-job query *)

Definition sched_le (a b : pin) : Prop := scheduled_for a <= scheduled_for b.

Lemma insert_by_sched_perm x l : Permutation (x :: l) (insert_by_sched x l).
Proof.
  induction l as [|y l IH]; simpl; [reflexivity|].
  destruct (scheduled_for x <? scheduled_for y); [reflexivity|].
  transitivity (y :: x :: l); [apply perm_swap | constructor; exact IH].
Qed.

Lemma sort_by_sched_perm l : Permutation l (sort_by_sched l).
Proof.
  induction l as [|x l IH]; simpl; [reflexivity|].
  transitivity (x :: sort_by_sched l);
    [constructor; exact IH | apply insert_by_sched_perm].
Qed.

Lemma insert_by_sched_sorted x l :
  Sorted sched_le l -> Sorted sched_le (insert_by_sched x l).
Proof.
  induction 1 as [|y l Hs IH Hhd]; simpl.
  - repeat constructor.
  - destruct (scheduled_for x <? scheduled_for y) eqn:E.
    + apply Z.ltb_lt in E.
      constructor; [constructor; assumption | constructor; unfold sched_le; lia].
    + apply Z.ltb_ge in E. constructor; [exact IH|].
      destruct l as [|z l]; simpl.
      * constructor. unfold sched_le; lia.
      * destruct (scheduled_for x <? scheduled_for z); constructor;
          [unfold sched_le; lia | inversion Hhd; assumption].
Qed.

Lemma sort_by_sched_sorted l : Sorted sched_le (sort_by_sched l).
Proof.
  induction l as [|x l IH]; simpl; [constructor | apply insert_by_sched_sorted; exact IH].
Qed.

Lemma firstn_sorted {A} (R : A -> A -> Prop) n l :
  Sorted R l -> Sorted R (firstn n l).
Proof.
  revert l; induction n as [|n IH]; intros l H; simpl; [constructor|].
  destruct l as [|x l]; [constructor|].
  inversion H as [|? ? Hs Hhd]; subst.
  constructor; [apply IH; assumption|].
  destruct n as [|n]; simpl; [constructor|].
  destruct l as [|y l]; [constructor|].
  inversion Hhd; constructor; assumption.
Qed.

Lemma In_firstn_in {A} n (l : list A) x : In x (firstn n l) -> In x l.
Proof. intro H. rewrite <- (firstn_skipn n l). apply in_or_app. now left. Qed.

Lemma NoDup_firstn_map {A B} (f : A -> B) n l :
  NoDup (map f l) -> NoDup (map f (firstn n l)).
Proof.
  intro H. rewrite <- (firstn_skipn n l), map_app in H.
  exact (NoDup_app_remove_r _ _ H).
Qed.

Lemma NoDup_map_filter {A B} (f : A -> B) (P : A -> bool) l :
  NoDup (map f l) -> NoDup (map f (filter P l)).
Proof.
  induction l as [|x l IH]; simpl; intro H; [constructor|].
  inversion H as [|? ? Hn Hd]; subst.
  destruct (P x); simpl; [|auto].
  constructor; [|auto].
  intro Hin. apply Hn. apply in_map_iff in Hin as [y [Hy Hin]].
  rewrite <- Hy. apply in_map. apply filter_In in Hin. tauto.
Qed.

Lemma in_fetch_due s now1 now2 r :
  In r (fetch_due s now1 now2) -> In r s /\ is_due now1 now2 r = true.
Proof.
  unfold fetch_due. intro H. apply In_firstn_in in H.
  apply (Permutation_in _ (Permutation_sym (sort_by_sched_perm _))) in H.
  apply filter_In in H. exact H.
Qed.

Lemma fetch_due_nodup s now1 now2 :
  NoDup (map pin_id s) -> NoDup (map pin_id (fetch_due s now1 now2)).
Proof.
  intro H. unfold fetch_due. apply NoDup_firstn_map.
  apply (Permutation_NoDup (Permutation_map pin_id (sort_by_sched_perm _))).
  apply NoDup_map_filter. exact H.
Qed.

Lemma is_due_status now1 now2 r :
  is_due now1 now2 r = true -> status r = "scheduled" \/ status r = "failed".
Proof.
  unfold is_due. intro H.
  apply andb_true_iff in H as [H _]. apply andb_true_iff in H as [H _].
  apply orb_true_iff in H as [H|H]; apply String.eqb_eq in H; auto.
Qed.

(** ** Failure handling *)

Lemma handle_pin_error_cap s now id msg :
  handle_pin_error s now id msg max_retries =
  update_where (eq_id id)
    [AStatus "failed"; AErrorMessage (Some ("Max retries reached: " ++ msg));
     ANextRetryAt None; AUpdatedAt now] s.
Proof. reflexivity. Qed.

Lemma process_pin_failure_store s now p out msg tok :
  account_token p = Some tok ->
  (out = PubApiError msg \/ out = PubThrow msg) ->
  fst (process_scheduled_pin s now p out) =
  handle_pin_error (update_where (eq_id (pin_id p))
                      [AStatus "posting"; AUpdatedAt now] s)
                   now (pin_id p) msg (retry_count p).
Proof.
  intros Htok [-> | ->]; unfold process_scheduled_pin; rewrite Htok; reflexivity.
Qed.

(** ** Publishing *)

Lemma process_pin_publishes s now p out :
  account_token p <> None ->
  In (EvPublish (pin_id p)) (snd (process_scheduled_pin s now p out)).
Proof.
  intro Htok. unfold process_scheduled_pin.
  destruct (account_token p) as [tok|]; [|congruence].
  destruct out; simpl; [destruct (credits_deducted p)|..]; simpl; auto.
Qed.

Lemma process_batch_publishes s now oracle batch p :
  In p batch -> account_token p <> None ->
  In (EvPublish (pin_id p)) (snd (process_batch s now oracle batch)).
Proof.
  revert s. induction batch as [|q batch IH]; intros s Hin Htok; [destruct Hin|].
  simpl. destruct (process_scheduled_pin s now q (oracle q)) as [s1 ev1] eqn:E1.
  destruct (process_batch s1 now oracle batch) as [s2 ev2] eqn:E2. simpl.
  apply in_or_app. destruct Hin as [-> | Hin].
  - left. pose proof (process_pin_publishes s now p (oracle p) Htok) as H.
    rewrite E1 in H. exact H.
  - right. pose proof (IH s1 Hin Htok) as H. rewrite E2 in H. exact H.
Qed.

Lemma count_publish_app id l1 l2 :
  count_publish id (l1 ++ l2) = (count_publish id l1 + count_publish id l2)%nat.
Proof. unfold count_publish. now rewrite filter_app, length_app. Qed.

Lemma count_publish_in id evs : In (EvPublish id) evs -> (1 <= count_publish id evs)%nat.
Proof.
  intro H. unfold count_publish.
  assert (Hf : In (EvPublish id) (filter (is_publish_of id) evs)).
  { apply filter_In. split; [exact H | simpl; apply Nat.eqb_refl]. }
  destruct (filter (is_publish_of id) evs); [destruct Hf | simpl; lia].
Qed.

Lemma count_debit_app id l1 l2 :
  count_debit id (l1 ++ l2) = (count_debit id l1 + count_debit id l2)%nat.
Proof. unfold count_debit. now rewrite filter_app, length_app. Qed.

Lemma count_set_flag_app id l1 l2 :
  count_set_flag id (l1 ++ l2) = (count_set_flag id l1 + count_set_flag id l2)%nat.
Proof. unfold count_set_flag. now rewrite filter_app, length_app. Qed.

Lemma count_debit_in id u a evs :
  In (EvDebit id u a) evs -> (1 <= count_debit id evs)%nat.
Proof.
  intro H. unfold count_debit.
  assert (Hf : In (EvDebit id u a) (filter (is_debit_of id) evs)).
  { apply filter_In. split; [exact H | simpl; apply Nat.eqb_refl]. }
  destruct (filter (is_debit_of id) evs); [destruct Hf | simpl; lia].
Qed.

Lemma count_set_flag_in id evs : In (EvSetFlag id) evs -> (1 <= count_set_flag id evs)%nat.
Proof.
  intro H. unfold count_set_flag.
  assert (Hf : In (EvSetFlag id) (filter (is_set_flag_of id) evs)).
  { apply filter_In. split; [exact H | simpl; apply Nat.eqb_refl]. }
  destruct (filter (is_set_flag_of id) evs); [destruct Hf | simpl; lia].
Qed.

Lemma nodup_same_id s r1 r2 :
  NoDup (map pin_id s) -> In r1 s -> In r2 s -> pin_id r1 = pin_id r2 -> r1 = r2.
Proof.
  induction s as [|a s IH]; intros Hnd H1 H2 Heq; [destruct H1|].
  simpl in Hnd. inversion Hnd as [|? ? Hn Hnd']; subst.
  destruct H1 as [<- | H1]; destruct H2 as [<- | H2]; auto.
  - exfalso. apply Hn. rewrite Heq. apply in_map. exact H2.
  - exfalso. apply Hn. rewrite <- Heq. apply in_map. exact H1.
Qed.

Lemma process_pin_store_shape s now p out :
  exists patch,
    fst (process_scheduled_pin s now p out) = update_where (eq_id (pin_id p)) patch s.
Proof.
  unfold process_scheduled_pin, handle_pin_error.
  destruct (account_token p);
    [destruct out; [destruct (credits_deducted p)|..]|];
    cbn [fst];
    repeat match goal with |- context [if ?c then _ else _] =>
             lazymatch c with eq_id _ _ => fail | _ => destruct c end end;
    eexists; rewrite ?update_where_compose; reflexivity.
Qed.

(** ** Debits *)

Lemma process_pin_debits s now p ext :
  account_token p <> None -> credits_deducted p = false ->
  In (EvDebit (pin_id p) (user_id p) 1) (snd (process_scheduled_pin s now p (PubOk ext))) /\
  In (EvSetFlag (pin_id p)) (snd (process_scheduled_pin s now p (PubOk ext))).
Proof.
  intros Htok Hcd. unfold process_scheduled_pin.
  destruct (account_token p) as [tok|]; [|congruence].
  rewrite Hcd. simpl. split; auto.
Qed.

Lemma process_batch_debits s now oracle batch p ext :
  In p batch -> account_token p <> None -> credits_deducted p = false ->
  oracle p = PubOk ext ->
  In (EvDebit (pin_id p) (user_id p) 1) (snd (process_batch s now oracle batch)) /\
  In (EvSetFlag (pin_id p)) (snd (process_batch s now oracle batch)).
Proof.
  revert s. induction batch as [|q batch IH]; intros s Hin Htok Hcd Ho; [destruct Hin|].
  simpl. destruct (process_scheduled_pin s now q (oracle q)) as [s1 ev1] eqn:E1.
  destruct (process_batch s1 now oracle batch) as [s2 ev2] eqn:E2. simpl.
  destruct Hin as [-> | Hin].
  - pose proof (process_pin_debits s now p ext Htok Hcd) as [H1 H2].
    rewrite <- Ho, E1 in H1, H2. simpl in H1, H2.
    split; apply in_or_app; left; assumption.
  - pose proof (IH s1 Hin Htok Hcd Ho) as [H1 H2]. rewrite E2 in H1, H2. simpl in H1, H2.
    split; apply in_or_app; right; assumption.
Qed.

(** * Claims *)

(** C5: at every pair of query instants, [fetchDue] returns only rows of
    the store whose status is [scheduled] or [failed] (so never [posted] or
    [cancelled]), whose [scheduled_for] is not after the first instant and
    whose [next_retry_at] is null or not after the second; the result is
    ordered by [scheduled_for] ascending and has at most 10 rows. *)
Theorem fetch_due_contract s now1 now2 :
  (forall r, In r (fetch_due s now1 now2) ->
     In r s /\
     (status r = "scheduled" \/ status r = "failed") /\
     status r <> "posted" /\ status r <> "cancelled" /\
     scheduled_for r <= now1 /\
     (next_retry_at r = None \/ exists t, next_retry_at r = Some t /\ t <= now2)) /\
  Sorted sched_le (fetch_due s now1 now2) /\
  (length (fetch_due s now1 now2) <= batch_limit)%nat.
Proof.
  split; [|split].
  - intros r Hr. apply in_fetch_due in Hr as [Hin Hd].
    pose proof (is_due_status _ _ _ Hd) as Hst.
    unfold is_due in Hd.
    apply andb_true_iff in Hd as [Hd Hn]. apply andb_true_iff in Hd as [_ Hs].
    apply Z.leb_le in Hs.
    split; [exact Hin|]. split; [exact Hst|].
    split; [destruct Hst as [E|E]; rewrite E; discriminate|].
    split; [destruct Hst as [E|E]; rewrite E; discriminate|].
    split; [exact Hs|].
    destruct (next_retry_at r) as [t|].
    + right. exists t. split; [reflexivity | apply Z.leb_le; exact Hn].
    + left. reflexivity.
  - unfold fetch_due. apply firstn_sorted. apply sort_by_sched_sorted.
  - apply firstn_le_length.
Qed.

(** C1 (the code does not do what the claim says): when a pin whose
    [retry_count] is already 3 fails again (Pinterest error or thrown
    exception), its row becomes [failed] with [next_retry_at = null] and is
    matched again by the due-job query at every later instant: the query has
    no cap check, and a null [next_retry_at] satisfies its [or] filter. *)
Theorem max_retry_failure_stays_due s now p out msg r' t1 t2 :
  retry_count p = max_retries ->
  account_token p <> None ->
  (out = PubApiError msg \/ out = PubThrow msg) ->
  In r' (fst (process_scheduled_pin s now p out)) ->
  pin_id r' = pin_id p ->
  scheduled_for r' <= t1 ->
  status r' = "failed" /\ next_retry_at r' = None /\ is_due t1 t2 r' = true.
Proof.
  intros Hrc Htok Hout Hin Hid Hsf.
  destruct (account_token p) as [tok|] eqn:Etok; [|congruence].
  rewrite (process_pin_failure_store s now p out msg tok Etok Hout), Hrc,
    handle_pin_error_cap, update_where_compose in Hin.
  apply in_update_where in Hin as [r [_ Hr]].
  destruct (eq_id (pin_id p) r) eqn:E.
  - subst r'. destruct r. simpl in *. unfold is_due; simpl.
    apply Z.leb_le in Hsf. rewrite Hsf. auto.
  - subst r'. unfold eq_id in E. rewrite Hid, Nat.eqb_refl in E. discriminate.
Qed.

(** C4: for every failure handled with a retry count that stays within the
    cap after the increment, every row of the pin becomes [failed] with the
    incremented [retry_count] and [next_retry_at] equal to the failure
    instant plus [5 * 3^(retry_count - 1)] minutes; other rows are
    unchanged. *)
Theorem handle_pin_error_backoff s now id msg cur :
  (S cur <= max_retries)%nat ->
  Forall2 (fun r r' =>
     if Nat.eqb (pin_id r) id then
       status r' = "failed" /\ retry_count r' = S cur /\
       next_retry_at r' =
         Some (now + 5 * 3 ^ (Z.of_nat (retry_count r') - 1) * minute_ms)
     else r' = r)
    s (handle_pin_error s now id msg cur).
Proof.
  intro H. unfold handle_pin_error. apply Nat.leb_le in H. rewrite H.
  unfold update_where. apply Forall2_map_r. intros r _.
  unfold eq_id. destruct (Nat.eqb (pin_id r) id); [|reflexivity].
  destruct r. split; [reflexivity|].
  match goal with |- ?rc = S cur /\ _ =>
    assert (Hrc : rc = S cur) by reflexivity; rewrite Hrc end.
  split; [reflexivity|].
  replace (Z.of_nat (S cur) - 1) with (Z.of_nat cur) by lia.
  reflexivity.
Qed.

(** C2 (the code does not do what the claim says): the claim update
    [update({status: 'posting'}).eq('id', pin.id)] is keyed by id only, so
    when two scheduler runs read the same due set, both go on to publish
    every due pin that has an access token: the pin is published twice. *)
Theorem two_pollers_publish_twice s now oracleA oracleB p :
  In p (fetch_due s now now) ->
  account_token p <> None ->
  (2 <= count_publish (pin_id p) (snd (two_pollers s now oracleA oracleB)))%nat.
Proof.
  intros Hin Htok. unfold two_pollers.
  destruct (process_batch s now oracleA (fetch_due s now now)) as [s1 evA] eqn:EA.
  destruct (process_batch s1 now oracleB (fetch_due s now now)) as [s2 evB] eqn:EB.
  simpl. rewrite count_publish_app.
  pose proof (process_batch_publishes s now oracleA _ p Hin Htok) as HA.
  pose proof (process_batch_publishes s1 now oracleB _ p Hin Htok) as HB.
  rewrite EA in HA. rewrite EB in HB.
  apply count_publish_in in HA. apply count_publish_in in HB. simpl in *. lia.
Qed.

(** C10: the list route answers with the page selected by
    [.range(offset, offset + limit - 1)] over the owner's (status-filtered)
    rows, and its [total] is the length of that page: [limit] rows, or
    fewer when fewer than [offset + limit] rows match, so it is below the
    number of matching rows whenever more rows match than the page holds. *)
Theorem list_total_is_page_length s user status_q offset limit :
  let page := db_range offset (offset + limit - 1) (list_rows s user status_q) in
  list_pins s user status_q offset limit = ListOk page (length page) /\
  length page = Nat.min (Z.to_nat limit)
                  (length (list_rows s user status_q) - Z.to_nat offset) /\
  (length page <= length (list_rows s user status_q))%nat.
Proof.
  intro page. split; [reflexivity|].
  assert (Hl : length page = Nat.min (Z.to_nat limit)
                 (length (list_rows s user status_q) - Z.to_nat offset)).
  { unfold page, db_range. rewrite length_firstn, length_skipn.
    replace (offset + limit - 1 - offset + 1) with limit by ring. reflexivity. }
  split; [exact Hl|]. rewrite Hl. lia.
Qed.

(** C3 (the code does not do what the claim says): the debit and the flag
    write are guarded only by the [credits_deducted] value of the row
    snapshot that the run read.  When two scheduler runs read the same due
    set and both publish a pin successfully, each run debits the owner and
    each writes the flag: the pin is debited twice. *)
Theorem two_pollers_debit_twice s now oracleA oracleB p extA extB :
  In p (fetch_due s now now) ->
  account_token p <> None ->
  credits_deducted p = false ->
  oracleA p = PubOk extA ->
  oracleB p = PubOk extB ->
  (2 <= count_debit (pin_id p) (snd (two_pollers s now oracleA oracleB)))%nat /\
  (2 <= count_set_flag (pin_id p) (snd (two_pollers s now oracleA oracleB)))%nat.
Proof.
  intros Hin Htok Hcd HA HB. unfold two_pollers.
  destruct (process_batch s now oracleA (fetch_due s now now)) as [s1 evA] eqn:EA.
  destruct (process_batch s1 now oracleB (fetch_due s now now)) as [s2 evB] eqn:EB.
  simpl. rewrite count_debit_app, count_set_flag_app.
  pose proof (process_batch_debits s now oracleA _ p extA Hin Htok Hcd HA) as [HA1 HA2].
  pose proof (process_batch_debits s1 now oracleB _ p extB Hin Htok Hcd HB) as [HB1 HB2].
  rewrite EA in HA1, HA2. rewrite EB in HB1, HB2. simpl in *.
  apply count_debit_in in HA1, HB1. apply count_set_flag_in in HA2, HB2. lia.
Qed.

(** ** Route properties, for every behaviour of the JS builtins *)

Section RouteClaims.

Variable date_of : jsval -> option Z.
Variable db_text : jsval -> string.
Variable json_parse : string -> option jsval.
Variable to_number : jsval -> option Q.
Variable one_year_after : Z -> Z.

Lemma Forall2_same {A} (P : A -> A -> Prop) (l : list A) :
  (forall x, In x l -> P x x) -> Forall2 P l l.
Proof.
  induction l as [|x l IH]; intro H; constructor.
  - apply H. now left.
  - apply IH. intros y Hy. apply H. now right.
Qed.

Lemma find_owned_unique s id user ex r :
  find_owned s id user = Some ex -> In r s -> owned id user r = true -> r = ex.
Proof.
  unfold find_owned. intros Hf Hin Ho.
  assert (Hr : In r (filter (owned id user) s)) by (apply filter_In; auto).
  destruct (filter (owned id user) s) as [|y [|z l]]; try discriminate.
  injection Hf as <-. destruct Hr as [<- | []]. reflexivity.
Qed.

Lemma owned_apply_patch id user patch r :
  owned id user (apply_patch patch r) = owned id user r.
Proof. unfold owned. now rewrite eq_id_apply_patch, apply_patch_user_id. Qed.

(** C9: the update route leaves a stored field unchanged whenever the
    request supplies a falsy value for it (title, description,
    scheduled_for, timezone, status, recurrence_pattern); [is_recurring] is
    left unchanged unless a boolean is supplied, and a supplied boolean is
    written into the pin when the update succeeds. *)
Theorem put_ignores_falsy_fields s user id b now :
  Forall2 (fun r r' =>
      pin_id r' = pin_id r /\
      (truthy (b_title b) = false -> title r' = title r) /\
      (truthy (b_description b) = false -> description r' = description r) /\
      (truthy (b_scheduled_for b) = false -> scheduled_for r' = scheduled_for r) /\
      (truthy (b_timezone b) = false -> timezone r' = timezone r) /\
      (truthy (b_status b) = false -> status r' = status r) /\
      (truthy (b_recurrence_pattern b) = false ->
         recurrence_pattern r' = recurrence_pattern r) /\
      ((forall x, b_is_recurring b <> JBool x) -> is_recurring r' = is_recurring r))
    s (snd (put_scheduled_pin date_of db_text s user id b now)) /\
  (forall x, b_is_recurring b = JBool x ->
     fst (put_scheduled_pin date_of db_text s user id b now) = Respond 200 ->
     forall r', In r' (snd (put_scheduled_pin date_of db_text s user id b now)) ->
       owned id user r' = true -> is_recurring r' = x).
Proof.
  unfold put_scheduled_pin.
  destruct (find_owned s id user) as [ex|] eqn:Ef;
  [| split; [apply Forall2_same; intros r _; repeat split; auto
            | intros; discriminate]].
  destruct (String.eqb (status ex) "posted");
  [ split; [apply Forall2_same; intros r _; repeat split; auto
           | intros; discriminate] |].
  destruct (truthy (b_scheduled_for b) && date_le (date_of (b_scheduled_for b)) now);
  [ split; [apply Forall2_same; intros r _; repeat split; auto
           | intros; discriminate] |].
  destruct (truthy (b_scheduled_for b)) eqn:Esf;
  [destruct (date_of (b_scheduled_for b)) as [d|] eqn:Ed;
   [| split; [apply Forall2_same; intros r _; repeat split; auto
             | intros; discriminate]] |];
  cbn zeta iota beta; (split;
  [ unfold update_where; apply Forall2_map_r; intros r _;
    destruct (owned id user r); [|repeat split; auto];
    destruct (truthy (b_title b)); destruct (truthy (b_description b));
    destruct (truthy (b_timezone b)); destruct (truthy (b_status b));
    destruct (truthy (b_recurrence_pattern b));
    destruct (b_is_recurring b) eqn:Er; destruct r;
    cbn; repeat split; intros; try discriminate; try reflexivity;
    exfalso; match goal with H : forall x : bool, _ <> _ |- _ =>
                               eapply H; reflexivity end
  | intros x Hx _ r' Hin Ho; rewrite Hx in *;
    apply in_update_where in Hin as [r [_ Hr]];
    subst r'; destruct (owned id user r) eqn:Eo; [|congruence];
    destruct (truthy (b_title b)); destruct (truthy (b_description b));
    destruct (truthy (b_timezone b)); destruct (truthy (b_status b));
    destruct (truthy (b_recurrence_pattern b)); destruct r; reflexivity ]).
Qed.

(** C8: an enqueue request that passes the field, date and account checks,
    with a truthy [is_recurring] and a non-empty [recurrence_pattern] string
    that [JSON.parse] rejects, makes the handler throw the SyntaxError: the
    parse runs before the [try] block, so no 400 (nor 500) is answered. *)
Theorem unparsable_recurrence_throws b now tok insert_ok str :
  truthy (s_image_url b) && truthy (s_title b) && truthy (s_description b)
    && truthy (s_board_id b) && truthy (s_scheduled_for b) = true ->
  date_le (date_of (s_scheduled_for b)) now = false ->
  match date_of (s_scheduled_for b) with
  | Some d => one_year_after now <? d
  | None => false
  end = false ->
  truthy (s_is_recurring b) = true ->
  s_recurrence_pattern b = JStr str ->
  str <> "" ->
  json_parse str = None ->
  schedule_pin date_of json_parse to_number one_year_after b now (Some tok) insert_ok
  = Rejected SyntaxError.
Proof.
  intros H1 H2 H3 H4 H5 H6 H7.
  unfold schedule_pin. rewrite H1. cbn [negb]. rewrite H2, H3.
  assert (Hrec : truthy (match s_is_recurring b with JUndef => JBool false | v => v end)
                 = true) by (destruct (s_is_recurring b); simpl in *; congruence).
  assert (Ht : truthy (JStr str) = true)
    by (simpl; apply negb_true_iff, String.eqb_neq; exact H6).
  cbv zeta. rewrite Hrec, H5, Ht. cbn [andb].
  unfold validate_recurrence. rewrite H7. reflexivity.
Qed.

End RouteClaims.

(** * Concrete instances *)

(** A pin already retried three times fails again at t = 2000 and is
    returned by the due-job query later on. *)
Lemma max_retry_failure_stays_due_witness :
  let p := example_pin "posting" 3 in
  let out := PubApiError "Service unavailable" in
  let s' := fst (process_scheduled_pin [p] 2000 p out) in
  let r' := hd p s' in
  fetch_due s' 1000000 1000000 = [r'] /\
  status r' = "failed" /\ next_retry_at r' = None /\ is_due 1000000 1000000 r' = true.
Proof.
  intros p out s' r'. split; [vm_compute; reflexivity|].
  apply (max_retry_failure_stays_due [p] 2000 p out "Service unavailable" r'
           1000000 1000000).
  - reflexivity.
  - discriminate.
  - left; reflexivity.
  - vm_compute. left; reflexivity.
  - reflexivity.
  - apply Z.leb_le. vm_compute. reflexivity.
Defined.

Lemma handle_pin_error_backoff_witness :
  let s := [example_pin "posting" 1] in
  (2 <= max_retries)%nat /\
  Forall2 (fun r r' =>
     if Nat.eqb (pin_id r) 1 then
       status r' = "failed" /\ retry_count r' = 2%nat /\
       next_retry_at r' =
         Some (7000 + 5 * 3 ^ (Z.of_nat (retry_count r') - 1) * minute_ms)
     else r' = r)
    s (handle_pin_error s 7000 1 "Bad Request" 1).
Proof.
  intro s. split; [apply Nat.leb_le; reflexivity|].
  apply (handle_pin_error_backoff s 7000 1 "Bad Request" 1).
  apply Nat.leb_le. reflexivity.
Defined.

Lemma two_pollers_publish_twice_witness :
  let s := [example_pin "scheduled" 0] in
  let ok := fun _ : pin => PubOk "pin-42" in
  In (example_pin "scheduled" 0) (fetch_due s 5000 5000) /\
  (2 <= count_publish 1 (snd (two_pollers s 5000 ok ok)))%nat.
Proof.
  intros s ok. split; [vm_compute; left; reflexivity|].
  apply (two_pollers_publish_twice s 5000 ok ok (example_pin "scheduled" 0)).
  - vm_compute. left; reflexivity.
  - discriminate.
Defined.

Lemma two_pollers_debit_twice_witness :
  let s := [example_pin "scheduled" 0] in
  In (example_pin "scheduled" 0) (fetch_due s 5000 5000) /\
  (2 <= count_debit 1 (snd (two_pollers s 5000 (fun _ => PubOk "pin-42")
                              (fun _ => PubOk "pin-43"))))%nat /\
  (2 <= count_set_flag 1 (snd (two_pollers s 5000 (fun _ => PubOk "pin-42")
                                 (fun _ => PubOk "pin-43"))))%nat.
Proof.
  intro s. split; [vm_compute; left; reflexivity|].
  apply (two_pollers_debit_twice s 5000 (fun _ => PubOk "pin-42") (fun _ => PubOk "pin-43")
           (example_pin "scheduled" 0) "pin-42" "pin-43").
  - vm_compute. left; reflexivity.
  - discriminate.
  - reflexivity.
  - reflexivity.
  - reflexivity.
Defined.

Lemma unparsable_recurrence_throws_witness :
  schedule_pin date_of_number (fun _ => None) (fun _ => None)
    (fun t => t + 31536000000) recurring_request 1000 (Some "token") true
  = Rejected SyntaxError.
Proof.
  apply (unparsable_recurrence_throws date_of_number (fun _ => None) (fun _ => None)
           (fun t => t + 31536000000) recurring_request 1000 "token" true "every day");
    try reflexivity; discriminate.
Defined.

(** C6 (the code does not do what the claim says): neither [posted] nor
    [cancelled] is absorbing.  (1) A scheduler run that read the due set
    before another run posted the pin claims the pin again and, when its
    publish fails, leaves the posted row [failed].  (2) The update route
    writes any truthy [status] for a pin that is not posted, so it moves a
    cancelled pin back to [scheduled].  (3) A cancel request that read the
    row while it was [posting] writes [cancelled] over the row that the run
    has posted in the meantime. *)
Theorem posted_and_cancelled_not_absorbing :
  let s := [example_pin "scheduled" 0] in
  let ok := fun _ : pin => PubOk "pin-42" in
  let err := fun _ : pin => PubApiError "Service unavailable" in
  (map status (fst (process_batch s 5000 ok (fetch_due s 5000 5000))) = ["posted"] /\
   map status (fst (two_pollers s 5000 ok err)) = ["failed"]) /\
  (let c := [example_pin "cancelled" 0] in
   let b := mkPutBody JUndef JUndef JUndef JUndef (JStr "scheduled") JUndef JUndef in
   fst (put_scheduled_pin date_of_number db_text_of_string c 7 1 b 5000) = Respond 200 /\
   map status (snd (put_scheduled_pin date_of_number db_text_of_string c 7 1 b 5000))
     = ["scheduled"]) /\
  (let s1 := update_where (eq_id 1) [AStatus "posting"; AUpdatedAt 5000] s in
   let s2 := update_where (eq_id 1)
               [AStatus "posted"; APostedAt 5000; APinterestPinId (Some "pin-42");
                AErrorMessage None; ARetryCount 0; ANextRetryAt None; AUpdatedAt 5000] s1 in
   let s3 := update_where (owned 1 7) (cancel_patch "posting" 5000) s2 in
   interleaved date_of_number db_text_of_string s s2 /\ map status s2 = ["posted"] /\
   fst (delete_scheduled_pin s1 7 1 5000) = Respond 200 /\
   interleaved date_of_number db_text_of_string s s3 /\ map status s3 = ["cancelled"]).
Proof.
  intros s ok err. split; [vm_compute; split; reflexivity|].
  split; [vm_compute; split; reflexivity|].
  intros s1 s2 s3.
  assert (Hp : In (example_pin "scheduled" 0) (fetch_due s 5000 5000))
    by (vm_compute; left; reflexivity).
  assert (H1 : interleaved date_of_number db_text_of_string s s1).
  { apply (IPinWrite _ _ s s s 5000 5000 5000 (example_pin "scheduled" 0) (PubOk "pin-42"));
      [apply IStart | apply IStart | exact Hp | vm_compute; left; reflexivity]. }
  assert (H2 : interleaved date_of_number db_text_of_string s s2).
  { apply (IPinWrite _ _ s s s1 5000 5000 5000 (example_pin "scheduled" 0) (PubOk "pin-42"));
      [apply IStart | exact H1 | exact Hp | vm_compute; right; left; reflexivity]. }
  split; [exact H2|]. split; [vm_compute; reflexivity|].
  split; [vm_compute; reflexivity|].
  split; [|vm_compute; reflexivity].
  apply (ICancel _ _ s s1 s2 7 1 5000 (hd (example_pin "scheduled" 0) s1)).
  - exact H1.
  - exact H2.
  - vm_compute. reflexivity.
  - vm_compute. reflexivity.
Qed.

(** C7 (the code does not do what the claim says): the rates are computed
    in binary64 arithmetic, and [Math.round(rate * 100)] rounds the double
    computed for [rate * 100], not the exact value.  With 160 impressions
    and 23 saves the exact save rate is 14.375 percent, which rounded to
    two decimals is 14.38; the code computes [23 / 160 * 100 * 100] as a
    double just below 1437.5 and stores the double nearest to 1437 / 100,
    i.e. 14.37. *)
Theorem save_rate_misrounded_at_tie :
  float_to_Q (impressions tie_counters) = Some 160%Q /\
  float_to_Q (saves tie_counters) = Some 23%Q /\
  (spec_rate 23 160 == 1438 # 100)%Q /\
  save_rate (compute_rates tie_counters) = (1437 / 100)%float /\
  exists q, float_to_Q (save_rate (compute_rates tie_counters)) = Some q /\
    (14369999 # 1000000 < q <= 1437 # 100)%Q.
Proof.
  split; [vm_compute; reflexivity|]. split; [vm_compute; reflexivity|].
  split; [vm_compute; reflexivity|]. split; [vm_compute; reflexivity|].
  eexists. split; [vm_compute; reflexivity|].
  split; vm_compute; [reflexivity | discriminate].
Qed.

(** * Further properties: scheduler and scheduled-pin routes *)

Section Further.

Variable date_of : jsval -> option Z.
Variable db_text : jsval -> string.
Variable json_parse : string -> option jsval.
Variable to_number : jsval -> option Q.
Variable one_year_after : Z -> Z.

(** ** Helpers *)

Lemma Forall2_in_r {A B} (P : A -> B -> Prop) l l' y :
  Forall2 P l l' -> In y l' -> exists x, In x l /\ P x y.
Proof.
  induction 1 as [|x y' l l' Hxy _ IH]; intros Hin; [destruct Hin|].
  destruct Hin as [<- | Hin]; [exists x; split; [left; reflexivity | exact Hxy]|].
  destruct (IH Hin) as [z [Hz Hp]]. exists z. split; [right; exact Hz | exact Hp].
Qed.

Lemma find_owned_in s id user ex :
  find_owned s id user = Some ex -> In ex s /\ owned id user ex = true.
Proof.
  unfold find_owned. intro Hf.
  destruct (filter (owned id user) s) as [|y [|z l]] eqn:E; try discriminate.
  injection Hf as <-. assert (H : In y (filter (owned id user) s)) by (rewrite E; left; reflexivity).
  apply filter_In in H. exact H.
Qed.

Lemma filter_owned_single s p user :
  NoDup (map pin_id s) -> In p s -> user_id p = user ->
  filter (owned (pin_id p) user) s = [p].
Proof.
  intros Hnd Hin Hu. subst user. revert Hnd Hin.
  induction s as [|a s IH]; intros Hnd Hin; [destruct Hin|].
  simpl in Hnd. inversion Hnd as [|? ? Hn Hnd']; subst.
  simpl. unfold owned at 1, eq_id at 1. destruct Hin as [<- | Hin].
  - rewrite !Nat.eqb_refl. simpl. f_equal.
    clear IH Hnd Hnd'. induction s as [|b s IHs]; [reflexivity|]. simpl.
    unfold owned at 1, eq_id at 1.
    destruct (Nat.eqb (pin_id b) (pin_id a)) eqn:E.
    + exfalso. apply Hn. apply Nat.eqb_eq in E. rewrite <- E. left. reflexivity.
    + simpl. apply IHs. intro H. apply Hn. right. exact H.
  - destruct (Nat.eqb (pin_id a) (pin_id p)) eqn:E.
    + exfalso. apply Hn. apply Nat.eqb_eq in E. rewrite E. apply in_map. exact Hin.
    + simpl. apply IH; assumption.
Qed.

Lemma find_owned_of s p user :
  NoDup (map pin_id s) -> In p s -> user_id p = user ->
  find_owned s (pin_id p) user = Some p.
Proof. intros Hnd Hin Hu. unfold find_owned. now rewrite (filter_owned_single s p user). Qed.

Lemma put_cases s user id b now :
  (fst (put_scheduled_pin date_of db_text s user id b now) = Respond 200 /\
   exists ex patch,
     find_owned s id user = Some ex /\ String.eqb (status ex) "posted" = false /\
     snd (put_scheduled_pin date_of db_text s user id b now)
       = update_where (owned id user) patch s /\
     forallb user_writable patch = true) \/
  (fst (put_scheduled_pin date_of db_text s user id b now) <> Respond 200 /\
   snd (put_scheduled_pin date_of db_text s user id b now) = s).
Proof.
  unfold put_scheduled_pin.
  destruct (find_owned s id user) as [ex|] eqn:Ef;
    [|right; split; [discriminate | reflexivity]].
  destruct (String.eqb (status ex) "posted") eqn:Ep;
    [right; split; [discriminate | reflexivity]|].
  destruct (truthy (b_scheduled_for b) && date_le (date_of (b_scheduled_for b)) now);
    [right; split; [discriminate | reflexivity]|].
  cbv beta iota zeta.
  assert (Hu : forall u_sched, forallb user_writable u_sched = true ->
    forallb user_writable
      ((if truthy (b_title b) then [ATitle (db_text (b_title b))] else []) ++
       (if truthy (b_description b)
        then [ADescription (db_text (b_description b))] else []) ++
       u_sched ++
       (if truthy (b_timezone b) then [ATimezone (db_text (b_timezone b))] else []) ++
       (if truthy (b_status b) then [AStatus (db_text (b_status b))] else []) ++
       match b_is_recurring b with JBool x => [AIsRecurring x] | _ => [] end ++
       (if truthy (b_recurrence_pattern b)
        then [ARecurrencePattern (b_recurrence_pattern b)] else [])) = true).
  { intros u Hu. rewrite !forallb_app, Hu.
    destruct (truthy (b_title b)), (truthy (b_description b)),
      (truthy (b_timezone b)), (truthy (b_status b)),
      (truthy (b_recurrence_pattern b)), (b_is_recurring b); reflexivity. }
  destruct (truthy (b_scheduled_for b)).
  - destruct (date_of (b_scheduled_for b)) as [d|];
      [|right; split; [discriminate | reflexivity]].
    left. split; [reflexivity|]. eexists ex, _.
    split; [reflexivity|]. split; [exact Ep|]. split; [reflexivity|]. apply Hu. reflexivity.
  - left. split; [reflexivity|]. eexists ex, _.
    split; [reflexivity|]. split; [exact Ep|]. split; [reflexivity|]. apply Hu. reflexivity.
Qed.

Lemma delete_cases s user id now :
  (fst (delete_scheduled_pin s user id now) = Respond 200 /\
   exists ex,
     find_owned s id user = Some ex /\ status ex <> "posted" /\
     snd (delete_scheduled_pin s user id now)
       = update_where (owned id user) (cancel_patch (status ex) now) s) \/
  (fst (delete_scheduled_pin s user id now) <> Respond 200 /\
   snd (delete_scheduled_pin s user id now) = s).
Proof.
  unfold delete_scheduled_pin.
  destruct (find_owned s id user) as [ex|] eqn:Ef;
    [|right; split; [discriminate | reflexivity]].
  destruct (String.eqb (status ex) "posted") eqn:Ep;
    [right; split; [discriminate | reflexivity]|].
  left. split; [destruct (String.eqb (status ex) "posting"); reflexivity|].
  exists ex. split; [reflexivity|]. split; [apply String.eqb_neq; exact Ep|].
  unfold cancel_patch. destruct (String.eqb (status ex) "posting"); reflexivity.
Qed.

Lemma cancel_patch_status st now r :
  status (apply_patch (cancel_patch st now) r) = "cancelled".
Proof. unfold cancel_patch. destruct (String.eqb st "posting"); destruct r; reflexivity. Qed.

(** Rows of another id are left as they are by one pin's processing. *)
Lemma process_pin_other_rows s now q out i (P : pin -> Prop) :
  pin_id q <> i -> (forall r, In r s -> pin_id r = i -> P r) ->
  forall r, In r (fst (process_scheduled_pin s now q out)) -> pin_id r = i -> P r.
Proof.
  intros Hne HP r Hr Hi. destruct (process_pin_store_shape s now q out) as [patch Hs].
  rewrite Hs in Hr. apply in_update_where in Hr as [r0 [Hr0 ->]].
  destruct (eq_id (pin_id q) r0) eqn:E.
  - exfalso. rewrite apply_patch_pin_id in Hi. unfold eq_id in E.
    apply Nat.eqb_eq in E. congruence.
  - exact (HP r0 Hr0 Hi).
Qed.

Lemma process_batch_other_rows s now oracle batch i (P : pin -> Prop) :
  (forall q, In q batch -> pin_id q <> i) -> (forall r, In r s -> pin_id r = i -> P r) ->
  forall r, In r (fst (process_batch s now oracle batch)) -> pin_id r = i -> P r.
Proof.
  revert s. induction batch as [|q batch IH]; intros s Hb HP; simpl; [exact HP|].
  destruct (process_scheduled_pin s now q (oracle q)) as [s1 ev1] eqn:E1.
  destruct (process_batch s1 now oracle batch) as [s2 ev2] eqn:E2. simpl.
  intros r Hr Hi.
  assert (HP1 : forall r, In r s1 -> pin_id r = i -> P r).
  { replace s1 with (fst (process_scheduled_pin s now q (oracle q)))
      by (rewrite E1; reflexivity).
    exact (process_pin_other_rows s now q (oracle q) i P (Hb q (or_introl eq_refl)) HP). }
  assert (H2 := IH s1 (fun q' Hq' => Hb q' (or_intror Hq')) HP1). rewrite E2 in H2.
  exact (H2 r Hr Hi).
Qed.

Lemma process_pin_success_shape s now p ext :
  account_token p <> None ->
  Forall2 (fun r r' =>
     if Nat.eqb (pin_id r) (pin_id p) then
       status r' = "posted" /\ posted_at r' = Some now /\
       pinterest_pin_id r' = Some ext /\ error_message r' = None /\
       retry_count r' = 0%nat /\ next_retry_at r' = None /\
       credits_deducted r' = (credits_deducted r || negb (credits_deducted p))
     else r' = r)
    s (fst (process_scheduled_pin s now p (PubOk ext))) /\
  snd (process_scheduled_pin s now p (PubOk ext)) =
    EvPublish (pin_id p) :: (if credits_deducted p then []
                             else [EvDebit (pin_id p) (user_id p) 1; EvSetFlag (pin_id p)]).
Proof.
  intro Ht. unfold process_scheduled_pin.
  destruct (account_token p) as [tok|]; [|congruence].
  destruct (credits_deducted p) eqn:Ec; cbn [fst snd]; (split; [|reflexivity]);
    rewrite ?update_where_compose; unfold update_where; apply Forall2_map_r;
    intros r _; unfold eq_id; destruct (Nat.eqb (pin_id r) (pin_id p)); try reflexivity;
    destruct r; simpl; rewrite ?orb_true_r, ?orb_false_r;
    repeat (split; [reflexivity|]); reflexivity.
Qed.

Lemma process_pin_posts s now p ext :
  account_token p <> None ->
  forall r, In r (fst (process_scheduled_pin s now p (PubOk ext))) ->
    pin_id r = pin_id p -> status r = "posted".
Proof.
  intros Ht r Hr Hi. destruct (process_pin_success_shape s now p ext Ht) as [HF _].
  destruct (Forall2_in_r _ _ _ _ HF Hr) as [r0 [_ Hp]].
  destruct (Nat.eqb (pin_id r0) (pin_id p)) eqn:E; [exact (proj1 Hp)|].
  subst r0. rewrite Hi, Nat.eqb_refl in E. discriminate.
Qed.

Lemma process_batch_posts s now oracle batch p ext :
  NoDup (map pin_id batch) -> In p batch -> oracle p = PubOk ext ->
  account_token p <> None ->
  forall r, In r (fst (process_batch s now oracle batch)) ->
    pin_id r = pin_id p -> status r = "posted".
Proof.
  revert s. induction batch as [|q batch IH]; intros s Hnd Hin Ho Ht; [destruct Hin|].
  simpl. destruct (process_scheduled_pin s now q (oracle q)) as [s1 ev1] eqn:E1.
  destruct (process_batch s1 now oracle batch) as [s2 ev2] eqn:E2. simpl.
  simpl in Hnd. inversion Hnd as [|? ? Hnotin Hnd']; subst.
  destruct Hin as [<- | Hin].
  - intros r Hr Hi.
    assert (H := process_batch_other_rows s1 now oracle batch (pin_id q)
                   (fun r => status r = "posted")).
    rewrite E2 in H. apply H; [| |exact Hr|exact Hi].
    + intros q' Hq' Heq. apply Hnotin. rewrite <- Heq. apply in_map. exact Hq'.
    + rewrite Ho in E1. replace s1 with (fst (process_scheduled_pin s now q (PubOk ext)))
        by (rewrite E1; reflexivity).
      apply process_pin_posts. exact Ht.
  - intros r Hr Hi. pose proof (IH s1 Hnd' Hin Ho Ht) as H. rewrite E2 in H.
    exact (H r Hr Hi).
Qed.

Lemma process_pin_publish_events s now p out :
  (length (filter is_publish (snd (process_scheduled_pin s now p out))) <= 1)%nat /\
  (forall i, In (EvPublish i) (snd (process_scheduled_pin s now p out)) ->
     i = pin_id p /\ account_token p <> None).
Proof.
  unfold process_scheduled_pin.
  destruct (account_token p) as [tok|]; [|cbn [snd]; split; [simpl; lia | intros i []]].
  destruct out; [destruct (credits_deducted p)|..]; cbn [snd]; split;
    try (simpl; lia);
    intros i Hi; simpl in Hi;
    repeat match type of Hi with _ \/ _ => destruct Hi as [Hi|Hi] end;
    try discriminate; try contradiction;
    injection Hi as Hi; (split; [congruence | discriminate]).
Qed.

Lemma process_batch_publish_events s now oracle batch :
  (length (filter is_publish (snd (process_batch s now oracle batch))) <= length batch)%nat /\
  (forall i, In (EvPublish i) (snd (process_batch s now oracle batch)) ->
     exists p, In p batch /\ pin_id p = i /\ account_token p <> None).
Proof.
  revert s. induction batch as [|q batch IH]; intro s; simpl.
  - split; [lia | intros i []].
  - destruct (process_scheduled_pin s now q (oracle q)) as [s1 ev1] eqn:E1.
    destruct (process_batch s1 now oracle batch) as [s2 ev2] eqn:E2. simpl.
    pose proof (process_pin_publish_events s now q (oracle q)) as [H1 H1'].
    rewrite E1 in H1, H1'. simpl in H1, H1'.
    destruct (IH s1) as [H2 H2']. rewrite E2 in H2, H2'. simpl in H2, H2'.
    split.
    + rewrite filter_app, length_app. lia.
    + intros i Hi. apply in_app_or in Hi as [Hi|Hi].
      * destruct (H1' i Hi) as [-> Ht]. exists q.
        split; [left; reflexivity | split; [reflexivity | exact Ht]].
      * destruct (H2' i Hi) as [p [Hp Hpp]]. exists p. split; [right; exact Hp | exact Hpp].
Qed.

Lemma apply_patch_retry_bound patch r :
  (forall n, In (ARetryCount n) patch -> (n <= max_retries)%nat) ->
  (retry_count r <= max_retries)%nat ->
  (retry_count (apply_patch patch r) <= max_retries)%nat.
Proof.
  unfold apply_patch. revert r.
  induction patch as [|a patch IH]; intros r Hp Hr; simpl; [exact Hr|].
  apply IH; [intros n Hn; apply Hp; right; exact Hn|].
  destruct a; destruct r; simpl; try exact Hr. apply Hp. left. reflexivity.
Qed.

Lemma update_where_retry_bound sel patch s :
  (forall n, In (ARetryCount n) patch -> (n <= max_retries)%nat) ->
  (forall r, In r s -> (retry_count r <= max_retries)%nat) ->
  forall r, In r (update_where sel patch s) -> (retry_count r <= max_retries)%nat.
Proof.
  intros Hp Hs r Hr. apply in_update_where in Hr as [r0 [Hr0 ->]].
  destruct (sel r0); [apply apply_patch_retry_bound|]; auto.
Qed.

Ltac retry_patch_ok :=
  let n := fresh "n" in let Hn := fresh "Hn" in
  intros n Hn; simpl in Hn;
  repeat match type of Hn with _ \/ _ => destruct Hn as [Hn|Hn] end;
  try discriminate; try contradiction; injection Hn as <-.

Lemma process_pin_retry_bound s now p out :
  (forall r, In r s -> (retry_count r <= max_retries)%nat) ->
  forall r, In r (fst (process_scheduled_pin s now p out)) ->
    (retry_count r <= max_retries)%nat.
Proof.
  intros Hs. unfold process_scheduled_pin, handle_pin_error.
  destruct (account_token p); [destruct out; [destruct (credits_deducted p)|..]|]; cbn [fst];
  repeat match goal with
         | |- context [if ?c then _ else _] =>
             lazymatch c with eq_id _ _ => fail | _ => destruct c eqn:? end
         end;
  repeat (apply update_where_retry_bound;
          [retry_patch_ok; first [unfold max_retries; lia | apply Nat.leb_le; assumption] |]);
  exact Hs.
Qed.

Lemma process_batch_retry_bound s now oracle batch :
  (forall r, In r s -> (retry_count r <= max_retries)%nat) ->
  forall r, In r (fst (process_batch s now oracle batch)) ->
    (retry_count r <= max_retries)%nat.
Proof.
  revert s. induction batch as [|q batch IH]; intros s Hs; simpl; [exact Hs|].
  destruct (process_scheduled_pin s now q (oracle q)) as [s1 ev1] eqn:E1.
  destruct (process_batch s1 now oracle batch) as [s2 ev2] eqn:E2. simpl.
  pose proof (IH s1) as H. rewrite E2 in H. apply H.
  replace s1 with (fst (process_scheduled_pin s now q (oracle q))) by (rewrite E1; reflexivity).
  apply process_pin_retry_bound. exact Hs.
Qed.

Lemma user_writable_no_retry patch n :
  forallb user_writable patch = true -> In (ARetryCount n) patch -> False.
Proof.
  intros Hw Hin. rewrite forallb_forall in Hw. specialize (Hw _ Hin). discriminate.
Qed.

Lemma pin_writes_retry_bound now p out patch n :
  In patch (pin_writes now p out) -> In (ARetryCount n) patch -> (n <= max_retries)%nat.
Proof.
  intros Hp Hn. unfold pin_writes, pin_error_patch in Hp.
  destruct (account_token p); [destruct out; [destruct (credits_deducted p)|..]|];
  repeat match type of Hp with
         | context [if ?c then _ else _] =>
             lazymatch c with
             | credits_deducted _ => fail
             | _ => destruct c eqn:?
             end
         end;
  simpl in Hp;
  repeat match type of Hp with _ \/ _ => destruct Hp as [<-|Hp] end;
  try contradiction;
  simpl in Hn;
  repeat match type of Hn with _ \/ _ => destruct Hn as [Hn|Hn] end;
  try discriminate; try contradiction; injection Hn as <-;
  first [unfold max_retries; lia | apply Nat.leb_le; assumption].
Qed.

Lemma put_updates_user_writable b u :
  put_updates date_of db_text b = Some u -> forallb user_writable u = true.
Proof.
  unfold put_updates. intro H.
  destruct (truthy (b_scheduled_for b));
    [destruct (date_of (b_scheduled_for b)) as [d|]; [|discriminate H]|];
  injection H as <-; rewrite !forallb_app;
  destruct (truthy (b_title b)), (truthy (b_description b)),
    (truthy (b_timezone b)), (truthy (b_status b)),
    (truthy (b_recurrence_pattern b)), (b_is_recurring b); reflexivity.
Qed.

Lemma scheduler_fields_user_writable patch r :
  forallb user_writable patch = true ->
  scheduler_fields (apply_patch patch r) = scheduler_fields r.
Proof.
  unfold apply_patch. revert r.
  induction patch as [|a patch IH]; intros r Hw; simpl in *; [reflexivity|].
  apply andb_true_iff in Hw as [Ha Hw]. rewrite (IH _ Hw).
  destruct a; try discriminate; destruct r; reflexivity.
Qed.

Lemma validate_recurrence_not_200 v r :
  validate_recurrence json_parse to_number v = Stop r -> r <> Respond 200.
Proof.
  unfold validate_recurrence.
  destruct (match v with JStr str => json_parse str | _ => Some v end) as [pat|];
    [|intro H; injection H as <-; discriminate].
  destruct (get_prop pat "type") as [ty|]; [|intro H; injection H as <-; discriminate].
  destruct (negb (is_recurrence_type ty)); [intro H; injection H as <-; discriminate|].
  destruct (get_prop pat "interval") as [iv|]; [|intro H; injection H as <-; discriminate].
  destruct (negb (truthy iv) || num_lt to_number iv 1 || num_gt to_number iv 30);
    [intro H; injection H as <-; discriminate | discriminate].
Qed.

(** ** Scheduler *)

(** processScheduledPin, on a pin whose account has no Pinterest access
    token, sets that pin's row to failed with retry_count 1, next_retry_at
    five minutes after the run and the message 'No Pinterest access token
    found', whatever its previous retry_count, publishes nothing, and leaves
    the other rows as they are. *)
Theorem tokenless_pin_retried_every_five_minutes s now p out :
  account_token p = None ->
  Forall2 (fun r r' =>
     if Nat.eqb (pin_id r) (pin_id p) then
       status r' = "failed" /\ retry_count r' = 1%nat /\
       next_retry_at r' = Some (now + 5 * minute_ms) /\
       error_message r' = Some "No Pinterest access token found"
     else r' = r)
    s (fst (process_scheduled_pin s now p out)) /\
  snd (process_scheduled_pin s now p out) = [].
Proof.
  intro Ht. unfold process_scheduled_pin. rewrite Ht. cbn [fst snd].
  split; [|reflexivity].
  unfold handle_pin_error. replace (Nat.leb 1 max_retries) with true by reflexivity.
  rewrite update_where_compose. unfold update_where. apply Forall2_map_r.
  intros r _. unfold eq_id. destruct (Nat.eqb (pin_id r) (pin_id p)); [|reflexivity].
  destruct r. refine (conj _ (conj _ (conj _ _))); reflexivity.
Qed.

(** A successful publish sets the pin's row to posted with posted_at the run
    time, the Pinterest id returned, no error, retry_count 0 and no
    next_retry_at; the credits flag is set unless the fetched pin already
    had it.  The run publishes once and debits one credit (and sets the
    flag) exactly when the fetched pin had no credits flag.  Other rows are
    unchanged. *)
Theorem successful_publish_marks_posted s now p ext :
  account_token p <> None ->
  Forall2 (fun r r' =>
     if Nat.eqb (pin_id r) (pin_id p) then
       status r' = "posted" /\ posted_at r' = Some now /\
       pinterest_pin_id r' = Some ext /\ error_message r' = None /\
       retry_count r' = 0%nat /\ next_retry_at r' = None /\
       credits_deducted r' = (credits_deducted r || negb (credits_deducted p))
     else r' = r)
    s (fst (process_scheduled_pin s now p (PubOk ext))) /\
  snd (process_scheduled_pin s now p (PubOk ext)) =
    EvPublish (pin_id p) :: (if credits_deducted p then []
                             else [EvDebit (pin_id p) (user_id p) 1; EvSetFlag (pin_id p)]).
Proof. intro Ht. exact (process_pin_success_shape s now p ext Ht). Qed.

(** One run of processScheduledPins makes at most 10 publish calls, and
    every pin it publishes was in the store, due at the run time and had a
    Pinterest access token. *)
Theorem scheduler_run_publishes_only_due_pins s now oracle :
  (length (filter is_publish (snd (process_scheduled_pins s now oracle))) <= batch_limit)%nat /\
  (forall i, In (EvPublish i) (snd (process_scheduled_pins s now oracle)) ->
     exists p, In p s /\ is_due now now p = true /\ pin_id p = i /\ account_token p <> None).
Proof.
  unfold process_scheduled_pins.
  destruct (process_batch_publish_events s now oracle (fetch_due s now now)) as [H1 H2].
  split.
  - eapply Nat.le_trans; [exact H1|]. unfold fetch_due. apply firstn_le_length.
  - intros i Hi. destruct (H2 i Hi) as [p [Hp [Hid Ht]]].
    apply in_fetch_due in Hp as [Hs Hd]. exists p. auto.
Qed.

(** Over any interleaving of the writes of scheduler runs (each working
    from a due set it read earlier, possibly stale), of update requests and
    of cancel requests, retry_count never exceeds the cap of 3 if it did not
    at the start. *)
Theorem retry_count_never_exceeds_cap s0 s :
  interleaved date_of db_text s0 s ->
  (forall r, In r s0 -> (retry_count r <= max_retries)%nat) ->
  forall r, In r s -> (retry_count r <= max_retries)%nat.
Proof.
  intros Hi Hs0. induction Hi as [|snap s now1 now2 now p out patch _ _ _ IH _ Hpatch
                                 |snap s user id b now updates _ _ _ IH _ Hu
                                 |snap s user id now ex _ _ _ IH _ _].
  - exact Hs0.
  - apply update_where_retry_bound; [|exact IH].
    intros n Hn. exact (pin_writes_retry_bound now p out patch n Hpatch Hn).
  - apply update_where_retry_bound; [|exact IH].
    intros n Hn. exfalso.
    exact (user_writable_no_retry updates n (put_updates_user_writable b updates Hu) Hn).
  - apply update_where_retry_bound; [|exact IH].
    unfold cancel_patch. destruct (String.eqb (status ex) "posting"); retry_patch_ok.
Qed.

(** After a successful cancel, the due-job query, at any times, returns no
    row with the cancelled pin's id (ids being unique). *)
Theorem cancelled_pin_leaves_due_set s user id now t1 t2 :
  NoDup (map pin_id s) ->
  fst (delete_scheduled_pin s user id now) = Respond 200 ->
  forall r, In r (fetch_due (snd (delete_scheduled_pin s user id now)) t1 t2) ->
    pin_id r <> id.
Proof.
  intros Hnd H200 r Hr Hid.
  destruct (delete_cases s user id now) as [[_ [ex [Hf [_ Hs]]]] | [Hne _]];
    [|contradiction].
  rewrite Hs in Hr. apply in_fetch_due in Hr as [Hr Hdue].
  apply is_due_status in Hdue.
  apply in_update_where in Hr as [r0 [Hr0 ->]].
  destruct (owned id user r0) eqn:Eo.
  - rewrite cancel_patch_status in Hdue. destruct Hdue as [E|E]; discriminate E.
  - destruct (find_owned_in s id user ex Hf) as [Hex Hoex].
    assert (Heq : r0 = ex).
    { apply (nodup_same_id s); auto. unfold owned, eq_id in Hoex.
      apply andb_true_iff in Hoex as [E _]. apply Nat.eqb_eq in E. congruence. }
    subst r0. congruence.
Qed.

(** A pin fetched by a scheduler run can still be cancelled by its owner
    before the run reaches it: the cancel succeeds and the row is cancelled,
    yet the run still publishes the pin and, on success, overwrites the row
    with status posted. *)
Theorem cancel_during_run_does_not_stop_publish s user now oracle p ext :
  NoDup (map pin_id s) ->
  In p (fetch_due s now now) -> user_id p = user ->
  account_token p <> None -> oracle p = PubOk ext ->
  fst (delete_scheduled_pin s user (pin_id p) now) = Respond 200 /\
  (forall r, In r (snd (delete_scheduled_pin s user (pin_id p) now)) ->
     pin_id r = pin_id p -> status r = "cancelled") /\
  In (EvPublish (pin_id p))
     (snd (process_batch (snd (delete_scheduled_pin s user (pin_id p) now)) now oracle
                         (fetch_due s now now))) /\
  (forall r, In r (fst (process_batch (snd (delete_scheduled_pin s user (pin_id p) now))
                                      now oracle (fetch_due s now now))) ->
     pin_id r = pin_id p -> status r = "posted").
Proof.
  intros Hnd Hin Hu Ht Ho.
  destruct (in_fetch_due s now now p Hin) as [Hps Hdue].
  pose proof (is_due_status _ _ _ Hdue) as Hst.
  assert (Hf : find_owned s (pin_id p) user = Some p) by (apply find_owned_of; assumption).
  assert (Hdel : delete_scheduled_pin s user (pin_id p) now =
     (Respond 200, update_where (owned (pin_id p) user) (cancel_patch (status p) now) s)).
  { unfold delete_scheduled_pin, cancel_patch. rewrite Hf.
    destruct Hst as [E|E]; rewrite E; reflexivity. }
  rewrite Hdel. cbn [fst snd].
  split; [reflexivity|]. split.
  - intros r Hr Hi. apply in_update_where in Hr as [r0 [Hr0 ->]].
    destruct (owned (pin_id p) user r0) eqn:Eo; [apply cancel_patch_status|].
    exfalso. assert (r0 = p) by (apply (nodup_same_id s); auto). subst r0.
    unfold owned, eq_id in Eo. rewrite Nat.eqb_refl, Hu, Nat.eqb_refl in Eo. discriminate.
  - split.
    + apply process_batch_publishes; assumption.
    + apply (process_batch_posts _ now oracle _ p ext); auto.
      apply fetch_due_nodup. exact Hnd.
Qed.

(** ** Scheduled-pin routes *)

(** The update route changes no row of another id or owner, never changes
    the columns the scheduler relies on (id, owner, retry_count,
    next_retry_at, error_message, credits_deducted, pinterest_pin_id,
    posted_at, updated_at, account), and leaves the table unchanged when it
    does not answer 200. *)
Theorem update_route_never_touches_scheduler_state s user id b now :
  (fst (put_scheduled_pin date_of db_text s user id b now) <> Respond 200 ->
   snd (put_scheduled_pin date_of db_text s user id b now) = s) /\
  Forall2 (fun r r' =>
     (owned id user r = false -> r' = r) /\ scheduler_fields r' = scheduler_fields r)
    s (snd (put_scheduled_pin date_of db_text s user id b now)).
Proof.
  destruct (put_cases s user id b now)
    as [[H200 [ex [patch [_ [_ [Hs Hw]]]]]] | [Hne Hs]]; rewrite Hs.
  - split; [intro H; exfalso; exact (H H200)|].
    unfold update_where. apply Forall2_map_r. intros r _.
    destruct (owned id user r).
    + split; [intro H; discriminate H | apply scheduler_fields_user_writable; exact Hw].
    + split; reflexivity.
  - split; [reflexivity|]. apply Forall2_same. intros r _. split; reflexivity.
Qed.

(** The cancel route writes only the owner's pin, and only when that pin is
    not posted: it sets status cancelled and, unless the pin was posting,
    updated_at; every other field and row is unchanged, and a non-200 answer
    leaves the table unchanged. *)
Theorem cancel_route_writes_only_status s user id now :
  (fst (delete_scheduled_pin s user id now) <> Respond 200 ->
   snd (delete_scheduled_pin s user id now) = s) /\
  Forall2 (fun r r' => r' = r \/
     (owned id user r = true /\ status r <> "posted" /\
      r' = apply_patch (cancel_patch (status r) now) r))
    s (snd (delete_scheduled_pin s user id now)).
Proof.
  destruct (delete_cases s user id now) as [[H200 [ex [Hf [Hnp Hs]]]] | [Hne Hs]];
    rewrite Hs.
  - split; [intro H; exfalso; exact (H H200)|].
    unfold update_where. apply Forall2_map_r. intros r Hr.
    destruct (owned id user r) eqn:Eo; [|left; reflexivity].
    right. rewrite (find_owned_unique s id user ex r Hf Hr Eo). auto.
  - split; [reflexivity|]. apply Forall2_same. intros r _. left. reflexivity.
Qed.

(** The permanent-delete route never removes a row of another id or owner,
    never removes a pin that is not cancelled or posted, removes the owner's
    pin when it answers 200, and changes nothing otherwise. *)
Theorem permanent_delete_removes_only_finished_pin s user id :
  (forall r, In r s -> owned id user r = false -> In r (snd (delete_permanent s user id))) /\
  (forall r, In r s -> status r <> "cancelled" -> status r <> "posted" ->
     In r (snd (delete_permanent s user id))) /\
  (fst (delete_permanent s user id) = Respond 200 ->
     forall r, In r (snd (delete_permanent s user id)) -> owned id user r = false) /\
  (fst (delete_permanent s user id) <> Respond 200 -> snd (delete_permanent s user id) = s).
Proof.
  unfold delete_permanent.
  destruct (find_owned s id user) as [ex|] eqn:Ef.
  2: { cbn [fst snd]. split; [auto|]. split; [auto|].
       split; [intro H; discriminate H | reflexivity]. }
  destruct (negb (String.eqb (status ex) "cancelled" || String.eqb (status ex) "posted"))
    eqn:Eb; cbn [fst snd].
  - split; [auto|]. split; [auto|]. split; [intro H; discriminate H | reflexivity].
  - split; [intros r Hr Ho; apply filter_In; rewrite Ho; auto|].
    split; [|split].
    + intros r Hr Hc Hp. apply filter_In. split; [exact Hr|].
      destruct (owned id user r) eqn:Eo; [|reflexivity].
      exfalso. rewrite (find_owned_unique s id user ex r Ef Hr Eo) in Hc, Hp.
      apply negb_false_iff in Eb. apply orb_true_iff in Eb as [E|E];
        apply String.eqb_eq in E; contradiction.
    + intros _ r Hr. apply filter_In in Hr as [_ H]. apply negb_true_iff in H. exact H.
    + intro H. exfalso. apply H. reflexivity.
Qed.

Lemma sched_le_trans : Transitive sched_le.
Proof. intros a b c Hab Hbc. unfold sched_le in *. lia. Qed.

Lemma StronglySorted_filter {A} (R : A -> A -> Prop) (f : A -> bool) l :
  StronglySorted R l -> StronglySorted R (filter f l).
Proof.
  induction l as [|x l IH]; intro H; simpl; [constructor|].
  apply StronglySorted_inv in H as [H1 H2].
  destruct (f x); [constructor|]; auto.
  apply Forall_forall. intros y Hy. apply filter_In in Hy as [Hy _].
  exact (proj1 (Forall_forall _ _) H2 y Hy).
Qed.

Lemma StronglySorted_skipn {A} (R : A -> A -> Prop) n l :
  StronglySorted R l -> StronglySorted R (skipn n l).
Proof.
  revert l. induction n as [|n IH]; intros l H; [exact H|].
  destruct l as [|x l]; [constructor|]. simpl.
  apply IH. exact (proj1 (StronglySorted_inv H)).
Qed.

Lemma list_rows_sorted s user st :
  StronglySorted sched_le (list_rows s user st).
Proof.
  assert (H : StronglySorted sched_le
                (sort_by_sched (filter (fun r => Nat.eqb (user_id r) user) s))).
  { apply Sorted_StronglySorted; [exact sched_le_trans | apply sort_by_sched_sorted]. }
  unfold list_rows. destruct st as [st|]; [destruct (String.eqb st "")|];
    auto using StronglySorted_filter.
Qed.

Lemma in_list_rows s user st r :
  In r (list_rows s user st) ->
  In r s /\ user_id r = user /\
  (forall q, st = Some q -> q <> "" -> status r = q).
Proof.
  assert (Hb : forall r, In r (sort_by_sched (filter (fun r => Nat.eqb (user_id r) user) s)) ->
                 In r s /\ user_id r = user).
  { intros r0 Hr0. apply (Permutation_in _ (Permutation_sym (sort_by_sched_perm _))) in Hr0.
    apply filter_In in Hr0 as [H1 H2]. apply Nat.eqb_eq in H2. auto. }
  unfold list_rows. destruct st as [st|].
  - destruct (String.eqb st "") eqn:Ee; intro Hr.
    + destruct (Hb r Hr) as [H1 H2]. split; [exact H1|split; [exact H2|]].
      intros q Hq Hne. injection Hq as <-. apply String.eqb_eq in Ee. contradiction.
    + apply filter_In in Hr as [Hr Hs]. destruct (Hb r Hr) as [H1 H2].
      split; [exact H1|split; [exact H2|]].
      intros q Hq _. injection Hq as <-. apply String.eqb_eq. exact Hs.
  - intro Hr. destruct (Hb r Hr) as [H1 H2]. split; [exact H1|split; [exact H2|]].
    intros q Hq. discriminate Hq.
Qed.

Lemma validate_recurrence_rejected v e :
  truthy v = true ->
  validate_recurrence json_parse to_number v = Stop (Rejected e) ->
  exists str, v = JStr str /\
    ((e = SyntaxError /\ json_parse str = None) \/
     (e = TypeError /\ (json_parse str = Some JNull \/ json_parse str = Some JUndef))).
Proof.
  intros Ht H. unfold validate_recurrence in H.
  assert (Hnn : forall j, match j with JUndef | JNull => False | _ => True end ->
                  exists ty iv, get_prop j "type" = Some ty /\ get_prop j "interval" = Some iv).
  { intros j Hj. destruct j; try contradiction; simpl;
      try (do 2 eexists; split; reflexivity).
    destruct (find _ fields), (find _ fields); do 2 eexists; split; reflexivity. }
  assert (Hgen : forall j, validate_recurrence json_parse to_number v = Stop (Rejected e) ->
       (match v with JStr str => json_parse str | v => Some v end) = Some j ->
       match j with JUndef | JNull => False | _ => True end -> False).
  { intros j Hv Hp Hj. destruct (Hnn j Hj) as [ty [iv [Hty Hiv]]].
    unfold validate_recurrence in Hv. rewrite Hp, Hty in Hv.
    destruct (negb (is_recurrence_type ty)); [discriminate|].
    rewrite Hiv in Hv.
    destruct (negb (truthy iv) || num_lt to_number iv 1 || num_gt to_number iv 30);
      discriminate. }
  fold (validate_recurrence json_parse to_number v) in H.
  destruct v as [| | | | str | |]; simpl in Ht; try discriminate;
    try (exfalso; eapply Hgen; [exact H | reflexivity | exact I]).
  exists str. split; [reflexivity|].
  destruct (json_parse str) as [j|] eqn:Ej.
  - right. destruct j; try (exfalso; eapply Hgen; [exact H | reflexivity | exact I]);
      unfold validate_recurrence in H; rewrite Ej in H; simpl in H;
      inversion H; auto.
  - left. unfold validate_recurrence in H. rewrite Ej in H. inversion H. auto.
Qed.

Lemma In_skipn_in {A} n (l : list A) x : In x (skipn n l) -> In x l.
Proof. intro H. rewrite <- (firstn_skipn n l). apply in_or_app. now right. Qed.

(** The list route returns only rows of the requesting user, of the
    requested status when a non-empty status is given, in ascending
    scheduled_for order, and at most [limit] of them. *)
Theorem list_route_rows_owned_sorted_bounded s user st offset limit :
  match list_pins s user st offset limit with
  | ListOk rows total =>
      (forall r, In r rows -> In r s /\ user_id r = user /\
                 (forall q, st = Some q -> q <> "" -> status r = q)) /\
      Sorted sched_le rows /\ (length rows <= Z.to_nat limit)%nat
  | ListError _ => False
  end.
Proof.
  unfold list_pins, db_range.
  replace (offset + limit - 1 - offset + 1) with limit by ring.
  split; [|split].
  - intros r Hr. apply in_list_rows.
    exact (In_skipn_in _ _ _ (In_firstn_in _ _ _ Hr)).
  - apply firstn_sorted, StronglySorted_Sorted, StronglySorted_skipn, list_rows_sorted.
  - rewrite length_firstn. lia.
Qed.

(** The pin-creation route answers 200 only when the five required fields
    are truthy, the schedule date parses to a time after now and at most one
    year ahead, the user has a Pinterest access token, the insert succeeds,
    and, when the pin is recurring with a recurrence pattern, that pattern
    passes validation. *)
Theorem schedule_pin_accepts_only_valid_requests b now tok insert_ok :
  schedule_pin date_of json_parse to_number one_year_after b now tok insert_ok = Respond 200 ->
  truthy (s_image_url b) = true /\ truthy (s_title b) = true /\
  truthy (s_description b) = true /\ truthy (s_board_id b) = true /\
  truthy (s_scheduled_for b) = true /\
  (exists d, date_of (s_scheduled_for b) = Some d /\ now < d /\ d <= one_year_after now) /\
  tok <> None /\ insert_ok = true /\
  (truthy (s_is_recurring b) = true -> truthy (s_recurrence_pattern b) = true ->
   validate_recurrence json_parse to_number (s_recurrence_pattern b) = Continue).
Proof.
  unfold schedule_pin. intro H.
  destruct (truthy (s_image_url b)) eqn:E1, (truthy (s_title b)) eqn:E2,
    (truthy (s_description b)) eqn:E3, (truthy (s_board_id b)) eqn:E4,
    (truthy (s_scheduled_for b)) eqn:E5; simpl in H; try discriminate H.
  do 5 (split; [reflexivity|]).
  destruct (date_of (s_scheduled_for b)) as [d|] eqn:Ed; simpl in H.
  2: { destruct tok; [|discriminate H].
       destruct (truthy _ && truthy _); [|discriminate H].
       destruct (validate_recurrence json_parse to_number (s_recurrence_pattern b)) eqn:Ev;
         [discriminate H|].
       exfalso. exact (validate_recurrence_not_200 _ _ Ev H). }
  destruct (d <=? now) eqn:Ele; [discriminate H|].
  destruct (one_year_after now <? d) eqn:Elt; [discriminate H|].
  destruct tok as [t|]; [|discriminate H].
  split; [exists d; split; [reflexivity|]; lia|].
  split; [discriminate|].
  destruct (validate_recurrence json_parse to_number (s_recurrence_pattern b)) as [|r] eqn:Ev.
  - destruct (truthy _ && truthy _); destruct insert_ok; simpl in H; try discriminate H;
      (split; [reflexivity | intros; reflexivity]).
  - destruct (truthy _ && truthy _) eqn:Er.
    + exfalso. exact (validate_recurrence_not_200 _ _ Ev H).
    + destruct insert_ok; simpl in H; [|discriminate H]. split; [reflexivity|].
      intros Hr Hp. exfalso. rewrite Hp, andb_true_r in Er.
      destruct (s_is_recurring b); simpl in Hr, Er; congruence.
Qed.

(** The pin-creation route throws (an unhandled rejection rather than an
    HTTP answer) only in the recurrence check: the pin is marked recurring
    and its recurrence pattern is a string that either is not JSON
    (SyntaxError) or parses to null (TypeError on its properties). *)
Theorem schedule_pin_throws_only_in_recurrence_check b now tok insert_ok e :
  schedule_pin date_of json_parse to_number one_year_after b now tok insert_ok = Rejected e ->
  truthy (s_is_recurring b) = true /\
  exists str, s_recurrence_pattern b = JStr str /\
    ((e = SyntaxError /\ json_parse str = None) \/
     (e = TypeError /\ (json_parse str = Some JNull \/ json_parse str = Some JUndef))).
Proof.
  unfold schedule_pin. intro H.
  destruct (negb _); [discriminate H|].
  destruct (date_of (s_scheduled_for b)) as [d|]; simpl in H;
    [destruct (d <=? now); [discriminate H|];
     destruct (one_year_after now <? d); [discriminate H|] |].
  all: destruct tok; [|discriminate H].
  all: destruct (truthy _ && truthy _) eqn:Er; [|destruct insert_ok; simpl in H; discriminate H].
  all: destruct (validate_recurrence json_parse to_number (s_recurrence_pattern b))
         as [|r] eqn:Ev; [destruct insert_ok; simpl in H; discriminate H|].
  all: rewrite H in Ev; apply andb_prop in Er as [Hr Hp]; split;
    [destruct (s_is_recurring b); simpl in Hr |- *; first [exact Hr | discriminate Hr]
    | exact (validate_recurrence_rejected _ _ Hp Ev)].
Qed.

(** ** Credits *)

Lemma fold_apply_passign_id patch p :
  prof_id (fold_left apply_passign patch p) = prof_id p.
Proof.
  revert p. induction patch as [|a patch IH]; intro p; simpl; [reflexivity|].
  rewrite IH. destruct p, a; reflexivity.
Qed.

Lemma find_profile_update sel patch ps u :
  find_profile (update_profiles sel patch ps) u =
  option_map (fun p => if sel p then fold_left apply_passign patch p else p)
             (find_profile ps u).
Proof.
  unfold find_profile, update_profiles.
  set (f := fun p => if sel p then fold_left apply_passign patch p else p).
  assert (Hf : forall p, prof_eq_id u (f p) = prof_eq_id u p).
  { intro p. unfold f, prof_eq_id. destruct (sel p); [rewrite fold_apply_passign_id|]; reflexivity. }
  assert (H : filter (prof_eq_id u) (map f ps) = map f (filter (prof_eq_id u) ps)).
  { induction ps as [|a ps IH]; simpl; [reflexivity|].
    rewrite Hf. destruct (prof_eq_id u a); simpl; congruence. }
  rewrite H. destruct (filter (prof_eq_id u) ps) as [|p [|q l]]; reflexivity.
Qed.

Lemma find_profile_some ps u p :
  find_profile ps u = Some p -> In p ps /\ prof_id p = u.
Proof.
  unfold find_profile. destruct (filter (prof_eq_id u) ps) as [|x [|y l]] eqn:E;
    try discriminate. intro H. injection H as ->.
  assert (Hin : In p (filter (prof_eq_id u) ps)) by (rewrite E; left; reflexivity).
  apply filter_In in Hin as [H1 H2]. unfold prof_eq_id in H2. apply Nat.eqb_eq in H2. auto.
Qed.

Lemma deduct_find_same ps u amount p :
  find_profile ps u = Some p ->
  find_profile (deduct_user_credits ps u amount) u =
  Some (apply_passign p (PCreditsRemaining
          (Some (Z.max 0 (or_zero (credits_remaining p) - amount))))).
Proof.
  intro H. unfold deduct_user_credits. rewrite H, find_profile_update, H. simpl.
  destruct (find_profile_some ps u p H) as [_ Hi].
  unfold prof_eq_id. rewrite Hi, Nat.eqb_refl. reflexivity.
Qed.

Lemma deduct_find_other ps v u amount :
  v <> u -> find_profile (deduct_user_credits ps v amount) u = find_profile ps u.
Proof.
  intro Hne. unfold deduct_user_credits. destruct (find_profile ps v); [|reflexivity].
  rewrite find_profile_update. destruct (find_profile ps u) as [q|] eqn:E; [|reflexivity].
  simpl. destruct (find_profile_some ps u q E) as [_ Hi].
  unfold prof_eq_id. rewrite Hi. destruct (Nat.eqb_spec u v); [congruence | reflexivity].
Qed.

End Further.

(** * Further properties: billing, access tokens and analytics *)

Lemma or_null_some x t : or_null x = Some t -> x = Some t /\ t <> "".
Proof.
  destruct x as [x|]; simpl; [|discriminate].
  destruct (String.eqb_spec x ""); [discriminate|]. intro H. injection H as <-. auto.
Qed.

Section Billing.

Variable parse_int : string -> option Z.
Variable parse_int_10 : string -> option Z.

Lemma checkout_find_profile ps session p :
  find_profile ps (md_user_id session) = Some p ->
  find_profile (handle_checkout_session_completed parse_int ps session) (md_user_id session) =
  Some (mkProfile (prof_id p)
          (match md_plan_type session with Some t => Some t | None => plan_type p end)
          (parse_int (md_credits session)) true (sess_customer session)
          (sess_subscription session) (pinterest_access_token p)).
Proof.
  intro Hf. unfold handle_checkout_session_completed.
  rewrite find_profile_update, Hf. simpl.
  destruct (find_profile_some _ _ _ Hf) as [_ Hi]. unfold prof_eq_id.
  replace (Nat.eqb (prof_id p) (md_user_id session)) with true
    by (rewrite Hi; symmetry; apply Nat.eqb_refl).
  destruct p, (md_plan_type session); reflexivity.
Qed.

(** A credit top-up checkout first runs the subscription handler, which
    sets the balance to the purchased amount n (and is_pro to true, the
    customer and subscription ids to the session's), and then adds n
    again: whatever the previous balance, it ends at 2n. *)
Theorem topup_sets_balance_to_twice_pack ps session p n :
  find_profile ps (md_user_id session) = Some p ->
  md_type session = Some "topup" -> md_credits session <> "" ->
  parse_int (md_credits session) = Some n -> parse_int_10 (md_credits session) = Some n ->
  0 < n ->
  exists p', find_profile (stripe_webhook parse_int parse_int_10 ps
                             (CheckoutSessionCompleted session)) (md_user_id session) = Some p' /\
    credits_remaining p' = Some (2 * n) /\ is_pro p' = true /\
    plan_type p' = match md_plan_type session with Some t => Some t | None => plan_type p end /\
    stripe_customer_id p' = sess_customer session /\
    stripe_subscription_id p' = sess_subscription session.
Proof.
  intros Hf Ht Hc H1 H2 Hn. cbn [stripe_webhook]. unfold apply_topup.
  rewrite Ht. apply String.eqb_neq in Hc. rewrite Hc, H2.
  replace (0 <? n) with true by (symmetry; apply Z.ltb_lt; exact Hn).
  cbn [option_string_eqb negb andb]. rewrite String.eqb_refl. cbn [andb].
  rewrite find_profile_update, (checkout_find_profile ps session p Hf). simpl.
  destruct (find_profile_some _ _ _ Hf) as [_ Hi]. unfold prof_eq_id at 1; simpl.
  rewrite Hi, Nat.eqb_refl, H1. simpl.
  eexists. split; [reflexivity|]. simpl.
  split; [replace (n + n) with (2 * n) by ring; reflexivity | auto].
Qed.

(** After a subscription checkout for plan t with customer c (no other
    profile having that customer id), the balance is the session's credits
    metadata; the next paid invoice of that customer resets it to the plan's
    allowance (creator 500, pro 1500, agency 5000), keeping plan and is_pro. *)
Theorem invoice_after_checkout_resets_to_plan_allowance ps session p t c k :
  find_profile ps (md_user_id session) = Some p ->
  md_plan_type session = Some t -> md_type session = None ->
  sess_customer session = Some c ->
  (forall q, In q ps -> stripe_customer_id q = Some c -> prof_id q = md_user_id session) ->
  plan_credits (Some t) = Some k ->
  (exists p1, find_profile (stripe_webhook parse_int parse_int_10 ps
                               (CheckoutSessionCompleted session)) (md_user_id session) = Some p1 /\
     credits_remaining p1 = parse_int (md_credits session) /\
     plan_type p1 = Some t /\ is_pro p1 = true) /\
  (exists p2, find_profile (stripe_webhook parse_int parse_int_10
                 (stripe_webhook parse_int parse_int_10 ps (CheckoutSessionCompleted session))
                 (InvoicePaymentSucceeded c)) (md_user_id session) = Some p2 /\
     credits_remaining p2 = Some k /\ plan_type p2 = Some t /\ is_pro p2 = true).
Proof.
  intros Hf Hpt Hty Hcu Huniq Hk.
  assert (Hps1 : stripe_webhook parse_int parse_int_10 ps (CheckoutSessionCompleted session)
                 = handle_checkout_session_completed parse_int ps session).
  { cbn [stripe_webhook]. unfold apply_topup. rewrite Hty. reflexivity. }
  rewrite Hps1.
  pose proof (checkout_find_profile ps session p Hf) as Hf1. rewrite Hpt, Hcu in Hf1.
  set (p1 := mkProfile (prof_id p) (Some t) (parse_int (md_credits session)) true
               (Some c) (sess_subscription session) (pinterest_access_token p)) in Hf1.
  split; [exists p1; auto|].
  assert (Hcust : find_by_customer (handle_checkout_session_completed parse_int ps session) c
                  = Some p1).
  { rewrite <- Hf1. unfold find_by_customer, find_profile.
    rewrite (filter_ext_in (fun q => option_string_eqb (stripe_customer_id q) c)
               (prof_eq_id (md_user_id session))); [reflexivity|].
    intros q Hq.
    unfold handle_checkout_session_completed, update_profiles in Hq.
    apply in_map_iff in Hq as [q0 [<- Hq0]].
    destruct (prof_eq_id (md_user_id session) q0) eqn:E.
    - rewrite Hpt, Hcu. unfold prof_eq_id in *. rewrite fold_apply_passign_id, E.
      destruct q0; simpl. apply String.eqb_refl.
    - rewrite E. destruct (stripe_customer_id q0) as [c'|] eqn:Ec; simpl; [|reflexivity].
      destruct (String.eqb_spec c' c) as [->|]; [|reflexivity].
      unfold prof_eq_id in E. rewrite (Huniq q0 Hq0 Ec), Nat.eqb_refl in E. discriminate. }
  cbn [stripe_webhook]. unfold handle_invoice_payment_succeeded. rewrite Hcust.
  unfold p1 at 1. cbn [plan_type]. rewrite Hk.
  rewrite find_profile_update, Hf1. simpl.
  destruct (find_profile_some _ _ _ Hf) as [_ Hi].
  unfold prof_eq_id. simpl. rewrite Nat.eqb_refl.
  eexists. split; [reflexivity|]. auto.
Qed.

End Billing.

(** getPinterestAccessTokenForUser returns only a non-empty token, taken
    from an account of that user with the requested id, or from the user's
    own profile when no account is requested. *)
Theorem access_token_belongs_to_user ps accounts u account t :
  get_pinterest_access_token_for_user ps accounts u account = Some t ->
  t <> "" /\
  match account with
  | Some a => exists acc, In acc accounts /\ acc_id acc = a /\ acc_user_id acc = u /\
                          access_token acc = Some t
  | None => exists p, In p ps /\ prof_id p = u /\ pinterest_access_token p = Some t
  end.
Proof.
  unfold get_pinterest_access_token_for_user. destruct account as [a|].
  - destruct (filter _ accounts) as [|acc [|y l]] eqn:E; try discriminate.
    intro H. apply or_null_some in H as [H1 H2]. split; [exact H2|].
    assert (Hin : In acc (filter (fun a0 => Nat.eqb (acc_id a0) a && Nat.eqb (acc_user_id a0) u)
                            accounts)) by (rewrite E; left; reflexivity).
    apply filter_In in Hin as [Hin Hb]. apply andb_prop in Hb as [Ha Hu].
    apply Nat.eqb_eq in Ha, Hu. exists acc. auto.
  - destruct (find_profile ps u) as [p|] eqn:E; [|discriminate].
    intro H. apply or_null_some in H as [H1 H2]. split; [exact H2|].
    destruct (find_profile_some _ _ _ E) as [Hin Hi]. exists p. auto.
Qed.

(** ** Analytics *)

Lemma Forall2_map_l_inv {A B} (P : A -> B -> Prop) (f : A -> A) l l' :
  Forall2 P (map f l) l' -> Forall2 (fun x y => P (f x) y) l l'.
Proof.
  revert l'. induction l as [|x l IH]; intros l' H; simpl in H.
  - inversion H. constructor.
  - inversion H; subst. constructor; auto.
Qed.

Lemma Forall2_impl_in {A B} (P Q : A -> B -> Prop) l l' :
  (forall x y, In x l -> P x y -> Q x y) -> Forall2 P l l' -> Forall2 Q l l'.
Proof.
  intros H HF. induction HF as [|x y l l' Hxy HF IH]; constructor.
  - apply H; [left; reflexivity | exact Hxy].
  - apply IH. intros a b Ha. apply H. right. exact Ha.
Qed.

Lemma Forall2_compose {A B C} (P : A -> B -> Prop) (Q : B -> C -> Prop) l1 l2 l3 :
  Forall2 P l1 l2 -> Forall2 Q l2 l3 -> Forall2 (fun x z => exists y, P x y /\ Q y z) l1 l3.
Proof.
  intro H. revert l3. induction H as [|x y l1 l2 Hxy H IH]; intros l3 H2;
    inversion H2; subst; constructor; eauto.
Qed.

Lemma Forall2_map_eq {A B} (f : A -> B) l l' :
  Forall2 (fun x y => f y = f x) l l' -> map f l' = map f l.
Proof. intro H. induction H; simpl; congruence. Qed.

Lemma NoDup_map_same {A B} (f : A -> B) l x y :
  NoDup (map f l) -> In x l -> In y l -> f x = f y -> x = y.
Proof.
  induction l as [|a l IH]; intros Hnd Hx Hy Heq; [destruct Hx|].
  simpl in Hnd. inversion Hnd as [|? ? Hnotin Hnd']; subst.
  destruct Hx as [<-|Hx], Hy as [<-|Hy]; auto.
  - exfalso. apply Hnotin. rewrite Heq. apply in_map. exact Hy.
  - exfalso. apply Hnotin. rewrite <- Heq. apply in_map. exact Hx.
Qed.

Lemma refresh_metrics_twice c c' t t' r :
  refresh_metrics c t (refresh_metrics c' t' r) = refresh_metrics c t r.
Proof. reflexivity. Qed.

Lemma sync_loop_frame ms windowStart force fetch pins :
  Forall2 (fun r r' => r' = r \/
     exists pin c t, In pin pins /\ m_id pin = m_id r /\
       (force = true \/ recently_updated (windowStart pin) pin = false) /\
       fetch pin = Some (c, t) /\ r' = refresh_metrics c t r)
    ms (fst (sync_loop ms windowStart force fetch pins)).
Proof.
  revert ms. induction pins as [|pin rest IH]; intro ms; simpl.
  - apply Forall2_same. intros. left. reflexivity.
  - assert (Hw : forall ms', Forall2 (fun r r' => r' = r \/
               exists pin' c t, In pin' rest /\ m_id pin' = m_id r /\
                 (force = true \/ recently_updated (windowStart pin') pin' = false) /\
                 fetch pin' = Some (c, t) /\ r' = refresh_metrics c t r) ms ms' ->
               Forall2 (fun r r' => r' = r \/
               exists pin' c t, (pin = pin' \/ In pin' rest) /\ m_id pin' = m_id r /\
                 (force = true \/ recently_updated (windowStart pin') pin' = false) /\
                 fetch pin' = Some (c, t) /\ r' = refresh_metrics c t r) ms ms').
    { intros ms' H. eapply Forall2_impl; [|exact H]. intros r r' [E|[pin' [c [t [H1 H2]]]]].
      - left. exact E.
      - right. exists pin', c, t. split; [right; exact H1 | exact H2]. }
    destruct (negb force && recently_updated (windowStart pin) pin) eqn:Eskip;
      [apply Hw, IH|].
    destruct (fetch pin) as [[c t]|] eqn:Ef; [|apply Hw, IH].
    pose proof (IH (update_metrics (m_id pin) c t ms)) as H.
    destruct (sync_loop (update_metrics (m_id pin) c t ms) windowStart force fetch rest)
      as [ms' n] eqn:E. simpl in H |- *.
    unfold update_metrics in H. apply Forall2_map_l_inv in H.
    assert (Hc : force = true \/ recently_updated (windowStart pin) pin = false)
      by (destruct force; [left; reflexivity | right; exact Eskip]).
    eapply Forall2_impl; [|exact H]. intros r r' Hr. cbv beta in Hr.
    destruct (Nat.eqb_spec (m_id r) (m_id pin)) as [Hid|Hid].
    + right. destruct Hr as [-> | [pin' [c' [t' [H1 [H2 [H3 [H4 ->]]]]]]]].
      * exists pin, c, t. split; [left; reflexivity|]. auto.
      * exists pin', c', t'. rewrite refresh_metrics_twice.
        split; [right; exact H1|]. split; [rewrite H2; reflexivity|]. auto.
    + destruct Hr as [Er | [pin' [c' [t' [H1 H2]]]]]; [left; exact Er|].
      right. exists pin', c', t'. split; [right; exact H1 | exact H2].
Qed.

Lemma sync_loop_count ms windowStart force fetch pins :
  (snd (sync_loop ms windowStart force fetch pins) <= length pins)%nat.
Proof.
  revert ms. induction pins as [|pin rest IH]; intro ms; simpl; [lia|].
  destruct (negb force && recently_updated (windowStart pin) pin);
    [specialize (IH ms); lia|].
  destruct (fetch pin) as [[c t]|]; [|specialize (IH ms); lia].
  pose proof (IH (update_metrics (m_id pin) c t ms)) as H.
  destruct (sync_loop (update_metrics (m_id pin) c t ms) windowStart force fetch rest)
    as [ms' n]. simpl in *. lia.
Qed.

Lemma posted_pins_of_in ms u lim r :
  In r (posted_pins_of ms u lim) -> In r ms /\ m_user_id r = u /\ posted_with_pin_id r = true.
Proof.
  unfold posted_pins_of. intro H. apply In_firstn_in, filter_In in H as [H1 H2].
  apply andb_prop in H2 as [H2 H3]. apply Nat.eqb_eq in H2. auto.
Qed.

Lemma sync_loop_posted_frame ms windowStart force fetch u lim :
  NoDup (map m_id ms) ->
  Forall2 (fun r r' => r' = r \/
     (In r (posted_pins_of ms u lim) /\
      (force = true \/ recently_updated (windowStart r) r = false) /\
      exists c t, fetch r = Some (c, t) /\ r' = refresh_metrics c t r))
    ms (fst (sync_loop ms windowStart force fetch (posted_pins_of ms u lim))).
Proof.
  intro Hnd. eapply Forall2_impl_in; [|apply sync_loop_frame].
  intros r r' Hr [E | [pin [c [t [H1 [H2 [H3 [H4 H5]]]]]]]]; [left; exact E|].
  right. assert (pin = r).
  { apply (NoDup_map_same m_id ms); auto. apply posted_pins_of_in in H1. tauto. }
  subst pin. split; [exact H1|]. split; [exact H3|]. exists c, t. auto.
Qed.

Lemma sync_user_frame ms u tok start fetch :
  NoDup (map m_id ms) ->
  Forall2 (fun r r' => r' = r \/
     (In r (posted_pins_of ms u 20) /\
      recently_updated (start - 12 * hour_ms) r = false /\
      exists c t, fetch r = Some (c, t) /\ r' = refresh_metrics c t r))
    ms (sync_user_analytics ms u tok start fetch).
Proof.
  intro Hnd. unfold sync_user_analytics. destruct tok as [tk|].
  - eapply Forall2_impl; [|apply sync_loop_posted_frame; exact Hnd].
    intros r r' [E | [H1 [[H2|H2] H3]]]; [left; exact E | discriminate H2 | right; auto].
  - apply Forall2_same. intros. left. reflexivity.
Qed.

(** syncUserAnalytics changes only rows of that user's posted pins with a
    Pinterest id (among the first 20) whose metrics_last_updated is not
    after the window start computed when the call begins (12 hours before
    it); each such row is written once, with the counters fetched for it,
    the rates computed from them and the time stamped by its own update;
    every other row is unchanged. *)
Theorem sync_user_refreshes_only_stale_posted_pins ms u tok start fetch :
  NoDup (map m_id ms) ->
  Forall2 (fun r r' => r' = r \/
     (In r (posted_pins_of ms u 20) /\
      recently_updated (start - 12 * hour_ms) r = false /\
      exists c t, fetch r = Some (c, t) /\ r' = refresh_metrics c t r))
    ms (sync_user_analytics ms u tok start fetch).
Proof. exact (sync_user_frame ms u tok start fetch). Qed.

(** The manual analytics sync route answers 400 without touching any row
    when the user has no access token; it never reports more synced pins
    than pins considered, considers at most 50, and changes only the user's
    posted pins with a Pinterest id among those 50, each (unless the sync is
    forced) with metrics_last_updated not after 24 hours before the clock
    reading taken when that pin is checked, to the counters fetched for it
    with the time stamped by its update. *)
Theorem sync_analytics_route_contract ms user tok force clock fetch :
  NoDup (map m_id ms) ->
  (tok = None -> sr_code (sync_analytics_route ms user tok force clock fetch) = 400 /\
                 sr_rows (sync_analytics_route ms user tok force clock fetch) = ms) /\
  (sr_synced_count (sync_analytics_route ms user tok force clock fetch)
     <= sr_total_pins (sync_analytics_route ms user tok force clock fetch) <= 50)%nat /\
  Forall2 (fun r r' => r' = r \/
     (In r (posted_pins_of ms user 50) /\
      (force = true \/ recently_updated (clock r - 24 * hour_ms) r = false) /\
      exists c t, fetch r = Some (c, t) /\ r' = refresh_metrics c t r))
    ms (sr_rows (sync_analytics_route ms user tok force clock fetch)).
Proof.
  intro Hnd. unfold sync_analytics_route. destruct tok as [tk|].
  - split; [intro H; discriminate H|].
    pose proof (sync_loop_posted_frame ms (fun pin => clock pin - 24 * hour_ms) force fetch
                  user 50 Hnd) as HF.
    pose proof (sync_loop_count ms (fun pin => clock pin - 24 * hour_ms) force fetch
                  (posted_pins_of ms user 50)) as Hn.
    assert (Hlen : (length (posted_pins_of ms user 50) <= 50)%nat)
      by (unfold posted_pins_of; rewrite length_firstn; lia).
    destruct (posted_pins_of ms user 50) as [|q l] eqn:Ep.
    + simpl. split; [lia|]. apply Forall2_same. intros. left. reflexivity.
    + destruct (sync_loop ms (fun pin => clock pin - 24 * hour_ms) force fetch (q :: l))
        as [ms' n].
      simpl in *. split; [lia | exact HF].
  - split; [intros _; split; reflexivity|]. simpl. split; [lia|].
    apply Forall2_same. intros. left. reflexivity.
Qed.

Lemma collect_users_spec rows acc :
  NoDup (map fst acc) ->
  NoDup (map fst (collect_users rows acc)) /\
  (forall x, In x (map fst acc) -> In x (map fst (collect_users rows acc))) /\
  (forall r, In r rows -> In (m_user_id r) (map fst (collect_users rows acc))) /\
  (forall ut, In ut (collect_users rows acc) ->
     In ut acc \/ exists r, In r rows /\ ut = (m_user_id r, m_account_token r)).
Proof.
  revert acc. induction rows as [|r rows IH]; intros acc Hnd; simpl.
  - split; [exact Hnd|]. split; [auto|]. split; [intros _ []|]. auto.
  - destruct (existsb (fun ut => Nat.eqb (fst ut) (m_user_id r)) acc) eqn:Ee.
    + destruct (IH acc Hnd) as [H1 [H2 [H3 H4]]].
      split; [exact H1|]. split; [exact H2|]. split.
      * intros r0 [<-|Hr0]; [|apply H3; exact Hr0].
        apply H2. apply existsb_exists in Ee as [ut [Hut Heq]].
        apply Nat.eqb_eq in Heq. rewrite <- Heq. apply in_map. exact Hut.
      * intros ut Hut. destruct (H4 ut Hut) as [H|[r0 [Hr0 E]]]; [left; exact H|].
        right. exists r0. auto.
    + assert (Hnd' : NoDup (map fst (acc ++ [(m_user_id r, m_account_token r)]))).
      { rewrite map_app. simpl. apply (Permutation_NoDup (Permutation_cons_append _ _)).
        constructor; [|exact Hnd]. intro Hin. apply in_map_iff in Hin as [ut [Hfst Hut]].
        assert (existsb (fun ut => Nat.eqb (fst ut) (m_user_id r)) acc = true)
          by (apply existsb_exists; exists ut; split; [exact Hut | apply Nat.eqb_eq; exact Hfst]).
        congruence. }
      destruct (IH _ Hnd') as [H1 [H2 [H3 H4]]].
      split; [exact H1|]. split.
      * intros x Hx. apply H2. rewrite map_app. apply in_or_app. left. exact Hx.
      * split.
        -- intros r0 [<-|Hr0]; [|apply H3; exact Hr0].
           apply H2. rewrite map_app. apply in_or_app. right. left. reflexivity.
        -- intros ut Hut. destruct (H4 ut Hut) as [H|[r0 [Hr0 E]]].
           ++ apply in_app_or in H as [H|[H|[]]]; [left; exact H|].
              right. exists r. auto.
           ++ right. exists r0. auto.
Qed.

(** processAnalyticsSync syncs each user at most once per run: the users
    are exactly those owning a posted pin with a Pinterest id, each listed
    once, with the account token of one of their such pins. *)
Theorem analytics_users_each_once ms :
  NoDup (map fst (analytics_users ms)) /\
  (forall r, In r ms -> posted_with_pin_id r = true ->
     In (m_user_id r) (map fst (analytics_users ms))) /\
  (forall u t, In (u, t) (analytics_users ms) ->
     exists r, In r ms /\ posted_with_pin_id r = true /\ m_user_id r = u /\
               m_account_token r = t).
Proof.
  unfold analytics_users.
  destruct (collect_users_spec (filter posted_with_pin_id ms) [] (NoDup_nil _))
    as [H1 [_ [H3 H4]]].
  split; [exact H1|]. split.
  - intros r Hr Hp. apply H3. apply filter_In. auto.
  - intros u t Hut. destruct (H4 _ Hut) as [[]|[r [Hr E]]].
    apply filter_In in Hr as [Hr Hp]. injection E as -> ->. exists r. auto.
Qed.

Lemma sync_users_frame ms start_of fetch L :
  NoDup (map m_id ms) -> NoDup (map fst L) ->
  Forall2 (fun r r' => r' = r \/
     (posted_with_pin_id r = true /\ In (m_user_id r) (map fst L) /\
      recently_updated (start_of (m_user_id r) - 12 * hour_ms) r = false /\
      exists c t, fetch r = Some (c, t) /\ r' = refresh_metrics c t r))
    ms (fold_left (fun ms ut => sync_user_analytics ms (fst ut) (snd ut)
                                  (start_of (fst ut)) fetch) L ms).
Proof.
  revert ms. induction L as [|[u tk] L IH]; intros ms Hnd HL; simpl.
  - apply Forall2_same. intros. left. reflexivity.
  - simpl in HL. inversion HL as [|? ? Hu HL']; subst.
    pose proof (sync_user_frame ms u tk (start_of u) fetch Hnd) as H1.
    assert (Hnd1 : NoDup (map m_id (sync_user_analytics ms u tk (start_of u) fetch))).
    { rewrite (Forall2_map_eq m_id ms); [exact Hnd|].
      eapply Forall2_impl; [|exact H1].
      intros r r' [->|[_ [_ [c [t [_ ->]]]]]]; reflexivity. }
    pose proof (Forall2_compose _ _ _ _ _ H1 (IH _ Hnd1 HL')) as H.
    eapply Forall2_impl; [|exact H]. intros r r'' [r' [Hr Hr']].
    destruct Hr as [-> | [Hin [Hst [c [t [Hc ->]]]]]].
    + destruct Hr' as [-> | [Hp [HinL HrU]]]; [left; reflexivity|].
      right. split; [exact Hp|]. split; [right; exact HinL | exact HrU].
    + apply posted_pins_of_in in Hin as [_ [Hur Hp]].
      destruct Hr' as [-> | [_ [HinL _]]].
      * right. split; [exact Hp|]. split; [left; symmetry; exact Hur|].
        rewrite Hur. split; [exact Hst|]. exists c, t. auto.
      * exfalso. apply Hu. simpl in HinL. rewrite Hur in HinL. exact HinL.
Qed.

(** A run of processAnalyticsSync changes only rows of posted pins with a
    Pinterest id, each owned by a user the run syncs, whose
    metrics_last_updated is not after the window start computed when that
    user's sync begins (12 hours before it); each such row is written at
    most once, with the counters fetched for it and the time stamped by its
    own update; all other rows are unchanged. *)
Theorem analytics_sync_refreshes_stale_rows_once ms start_of fetch :
  NoDup (map m_id ms) ->
  Forall2 (fun r r' => r' = r \/
     (posted_with_pin_id r = true /\ In (m_user_id r) (map fst (analytics_users ms)) /\
      recently_updated (start_of (m_user_id r) - 12 * hour_ms) r = false /\
      exists c t, fetch r = Some (c, t) /\ r' = refresh_metrics c t r))
    ms (process_analytics_sync ms start_of fetch).
Proof.
  intro Hnd. unfold process_analytics_sync. apply sync_users_frame; [exact Hnd|].
  unfold analytics_users.
  exact (proj1 (collect_users_spec (filter posted_with_pin_id ms) [] (NoDup_nil _))).
Qed.

(** * Concrete instances of the further properties *)

Lemma tokenless_pin_retried_every_five_minutes_witness :
  Forall2 (fun r r' =>
     if Nat.eqb (pin_id r) (pin_id tokenless_pin) then
       status r' = "failed" /\ retry_count r' = 1%nat /\
       next_retry_at r' = Some (3000 + 5 * minute_ms) /\
       error_message r' = Some "No Pinterest access token found"
     else r' = r)
    [example_pin "scheduled" 0; tokenless_pin]
    (fst (process_scheduled_pin [example_pin "scheduled" 0; tokenless_pin] 3000
            tokenless_pin (PubOk "pin-9"))) /\
  snd (process_scheduled_pin [example_pin "scheduled" 0; tokenless_pin] 3000
         tokenless_pin (PubOk "pin-9")) = [].
Proof.
  apply (tokenless_pin_retried_every_five_minutes
           [example_pin "scheduled" 0; tokenless_pin] 3000 tokenless_pin (PubOk "pin-9")).
  reflexivity.
Defined.

Lemma successful_publish_marks_posted_witness :
  Forall2 (fun r r' =>
     if Nat.eqb (pin_id r) (pin_id (example_pin "scheduled" 0)) then
       status r' = "posted" /\ posted_at r' = Some 5000 /\
       pinterest_pin_id r' = Some "pin-42" /\ error_message r' = None /\
       retry_count r' = 0%nat /\ next_retry_at r' = None /\
       credits_deducted r' =
         (credits_deducted r || negb (credits_deducted (example_pin "scheduled" 0)))
     else r' = r)
    [example_pin "scheduled" 0; tokenless_pin]
    (fst (process_scheduled_pin [example_pin "scheduled" 0; tokenless_pin] 5000
            (example_pin "scheduled" 0) (PubOk "pin-42"))) /\
  snd (process_scheduled_pin [example_pin "scheduled" 0; tokenless_pin] 5000
         (example_pin "scheduled" 0) (PubOk "pin-42")) =
    EvPublish 1 :: (if credits_deducted (example_pin "scheduled" 0) then []
                    else [EvDebit 1 7 1; EvSetFlag 1]).
Proof.
  apply (successful_publish_marks_posted [example_pin "scheduled" 0; tokenless_pin] 5000
           (example_pin "scheduled" 0) "pin-42").
  discriminate.
Defined.

Lemma retry_count_never_exceeds_cap_witness :
  let s0 := [example_pin "scheduled" 2] in
  let s1 := update_where (eq_id 1) (pin_error_patch 5000 "Service unavailable" 2) s0 in
  let s2 := update_where (eq_id 1) (pin_error_patch 6000 "Service unavailable" 2) s1 in
  Forall (fun r => (retry_count r <= max_retries)%nat) s2.
Proof.
  intros s0 s1 s2.
  assert (Hp : In (example_pin "scheduled" 2) (fetch_due s0 5000 5000))
    by (vm_compute; left; reflexivity).
  assert (H1 : interleaved date_of_number db_text_of_string s0 s1).
  { apply (IPinWrite _ _ s0 s0 s0 5000 5000 5000 (example_pin "scheduled" 2)
             (PubApiError "Service unavailable"));
      [apply IStart | apply IStart | exact Hp | vm_compute; right; left; reflexivity]. }
  assert (H2 : interleaved date_of_number db_text_of_string s0 s2).
  { apply (IPinWrite _ _ s0 s0 s1 5000 5000 6000 (example_pin "scheduled" 2)
             (PubApiError "Service unavailable"));
      [apply IStart | exact H1 | exact Hp | vm_compute; right; left; reflexivity]. }
  apply Forall_forall.
  apply (retry_count_never_exceeds_cap date_of_number db_text_of_string s0 s2 H2).
  intros r [<- | []]. apply Nat.leb_le. reflexivity.
Defined.

Lemma cancelled_pin_leaves_due_set_witness :
  fst (delete_scheduled_pin [example_pin "scheduled" 0; tokenless_pin] 7 1 500)
    = Respond 200 /\
  forall r, In r (fetch_due (snd (delete_scheduled_pin
                    [example_pin "scheduled" 0; tokenless_pin] 7 1 500)) 5000 5000) ->
    pin_id r <> 1%nat.
Proof.
  split; [reflexivity|].
  apply (cancelled_pin_leaves_due_set [example_pin "scheduled" 0; tokenless_pin]
           7 1 500 5000 5000).
  - vm_compute. repeat constructor; simpl; intuition discriminate.
  - reflexivity.
Defined.

Lemma cancel_during_run_does_not_stop_publish_witness :
  let s := [example_pin "scheduled" 0; tokenless_pin] in
  let p := example_pin "scheduled" 0 in
  let oracle := fun _ : pin => PubOk "pin-42" in
  fst (delete_scheduled_pin s 7 (pin_id p) 5000) = Respond 200 /\
  (forall r, In r (snd (delete_scheduled_pin s 7 (pin_id p) 5000)) ->
     pin_id r = pin_id p -> status r = "cancelled") /\
  In (EvPublish (pin_id p))
     (snd (process_batch (snd (delete_scheduled_pin s 7 (pin_id p) 5000)) 5000 oracle
                         (fetch_due s 5000 5000))) /\
  (forall r, In r (fst (process_batch (snd (delete_scheduled_pin s 7 (pin_id p) 5000))
                                      5000 oracle (fetch_due s 5000 5000))) ->
     pin_id r = pin_id p -> status r = "posted").
Proof.
  intros s p oracle.
  apply (cancel_during_run_does_not_stop_publish s 7 5000 oracle p "pin-42").
  - vm_compute. repeat constructor; simpl; intuition discriminate.
  - vm_compute. right. left. reflexivity.
  - reflexivity.
  - discriminate.
  - reflexivity.
Defined.

Lemma schedule_pin_accepts_only_valid_requests_witness :
  let oneyear := fun t => t + 31536000000 in
  schedule_pin date_of_number (fun _ => None) (fun _ => None) oneyear single_request
    1000 (Some "token") true = Respond 200 /\
  truthy (s_image_url single_request) = true /\ truthy (s_title single_request) = true /\
  truthy (s_description single_request) = true /\ truthy (s_board_id single_request) = true /\
  truthy (s_scheduled_for single_request) = true /\
  (exists d, date_of_number (s_scheduled_for single_request) = Some d /\
             1000 < d /\ d <= oneyear 1000) /\
  Some "token" <> None /\ true = true /\
  (truthy (s_is_recurring single_request) = true ->
   truthy (s_recurrence_pattern single_request) = true ->
   validate_recurrence (fun _ => None) (fun _ => None) (s_recurrence_pattern single_request)
     = Continue).
Proof.
  intro oneyear. split; [reflexivity|].
  apply (schedule_pin_accepts_only_valid_requests date_of_number (fun _ => None)
           (fun _ => None) oneyear single_request 1000 (Some "token") true).
  reflexivity.
Defined.

Lemma schedule_pin_throws_only_in_recurrence_check_witness :
  truthy (s_is_recurring recurring_request) = true /\
  exists str, s_recurrence_pattern recurring_request = JStr str /\
    ((SyntaxError = SyntaxError /\ (fun _ : string => @None jsval) str = None) \/
     (SyntaxError = TypeError /\
      ((fun _ : string => @None jsval) str = Some JNull \/
       (fun _ : string => @None jsval) str = Some JUndef))).
Proof.
  apply (schedule_pin_throws_only_in_recurrence_check date_of_number (fun _ => None)
           (fun _ => None) (fun t => t + 31536000000) recurring_request 1000 (Some "token")
           true SyntaxError).
  reflexivity.
Defined.

Lemma topup_sets_balance_to_twice_pack_witness :
  exists p', find_profile (stripe_webhook parse_decimal parse_decimal example_profiles
                             (CheckoutSessionCompleted topup_session)) 7 = Some p' /\
    credits_remaining p' = Some (2 * 100) /\ is_pro p' = true /\
    plan_type p' = match md_plan_type topup_session with
                   | Some t => Some t | None => plan_type example_profile end /\
    stripe_customer_id p' = sess_customer topup_session /\
    stripe_subscription_id p' = sess_subscription topup_session.
Proof.
  apply (topup_sets_balance_to_twice_pack parse_decimal parse_decimal example_profiles
           topup_session example_profile 100).
  - reflexivity.
  - reflexivity.
  - discriminate.
  - reflexivity.
  - reflexivity.
  - reflexivity.
Defined.

Lemma invoice_after_checkout_resets_to_plan_allowance_witness :
  (exists p1, find_profile (stripe_webhook parse_decimal parse_decimal example_profiles
                               (CheckoutSessionCompleted creator_session)) 7 = Some p1 /\
     credits_remaining p1 = parse_decimal "1000" /\
     plan_type p1 = Some "creator" /\ is_pro p1 = true) /\
  (exists p2, find_profile (stripe_webhook parse_decimal parse_decimal
                 (stripe_webhook parse_decimal parse_decimal example_profiles
                    (CheckoutSessionCompleted creator_session))
                 (InvoicePaymentSucceeded "cus_7")) 7 = Some p2 /\
     credits_remaining p2 = Some 500 /\ plan_type p2 = Some "creator" /\ is_pro p2 = true).
Proof.
  apply (invoice_after_checkout_resets_to_plan_allowance parse_decimal parse_decimal
           example_profiles creator_session example_profile "creator" "cus_7" 500).
  - reflexivity.
  - reflexivity.
  - reflexivity.
  - reflexivity.
  - intros q [<- | [<- | []]] H; discriminate H.
  - reflexivity.
Defined.

Lemma access_token_belongs_to_user_witness :
  "account-token" <> "" /\
  exists acc, In acc example_accounts /\ acc_id acc = 3%nat /\ acc_user_id acc = 7%nat /\
              access_token acc = Some "account-token".
Proof.
  apply (access_token_belongs_to_user example_profiles example_accounts 7 (Some 3%nat)
           "account-token").
  reflexivity.
Defined.

Lemma sync_user_refreshes_only_stale_posted_pins_witness :
  Forall2 (fun r r' => r' = r \/
     (In r (posted_pins_of example_metrics 7 20) /\
      recently_updated (10000000 - 12 * hour_ms) r = false /\
      exists c t, example_fetch r = Some (c, t) /\ r' = refresh_metrics c t r))
    example_metrics
    (sync_user_analytics example_metrics 7 (Some "token") 10000000 example_fetch).
Proof.
  apply (sync_user_refreshes_only_stale_posted_pins example_metrics 7 (Some "token")
           10000000 example_fetch).
  vm_compute. repeat constructor; simpl; intuition discriminate.
Defined.

Lemma sync_analytics_route_contract_witness :
  let res := sync_analytics_route example_metrics 7 (Some "token") false
               (fun _ => 10000000) example_fetch in
  (Some "token" = None -> sr_code res = 400 /\ sr_rows res = example_metrics) /\
  (sr_synced_count res <= sr_total_pins res <= 50)%nat /\
  Forall2 (fun r r' => r' = r \/
     (In r (posted_pins_of example_metrics 7 50) /\
      (false = true \/ recently_updated (10000000 - 24 * hour_ms) r = false) /\
      exists c t, example_fetch r = Some (c, t) /\ r' = refresh_metrics c t r))
    example_metrics (sr_rows res).
Proof.
  intro res.
  apply (sync_analytics_route_contract example_metrics 7 (Some "token") false
           (fun _ => 10000000) example_fetch).
  vm_compute. repeat constructor; simpl; intuition discriminate.
Defined.

Lemma analytics_sync_refreshes_stale_rows_once_witness :
  Forall2 (fun r r' => r' = r \/
     (posted_with_pin_id r = true /\
      In (m_user_id r) (map fst (analytics_users example_metrics)) /\
      recently_updated (10000000 - 12 * hour_ms) r = false /\
      exists c t, example_fetch r = Some (c, t) /\ r' = refresh_metrics c t r))
    example_metrics
    (process_analytics_sync example_metrics (fun _ => 10000000) example_fetch).
Proof.
  apply (analytics_sync_refreshes_stale_rows_once example_metrics (fun _ => 10000000)
           example_fetch).
  vm_compute. repeat constructor; simpl; intuition discriminate.
Defined.

